(** * libkrun guest init and chroot_vm launcher: a shallow embedding

    The two C programs of the repository, [init/init.c] (the first process
    of the guest) and [examples/chroot_vm.c] (the host launcher), are
    translated into Rocq functions.  Every call that leaves the program
    (system calls, libc output, libkrun entry points) is recorded, with the
    value it returned, in a chronological trace; the values come from an
    oracle that sees the call and the history so far, so that every theorem
    quantified over the oracle holds for every behaviour of the kernel and
    of the libraries.  A C string is the list of its characters; a pointer
    into it is an offset, and a read outside the string object ends the run
    as a fault. *)

From Stdlib Require Import ZArith List String Ascii Bool Lia Sorted.
From Equations Require Import Equations.
Import ListNotations.

Set Implicit Arguments.

(* ===================================================================== *)
(** ** Runs: traces, outcomes and the monad that threads them *)
(* ===================================================================== *)

Module Run.
Section WithCalls.

(** The calls a program can make, and the oracle answering them. *)
Context {call : Type}.

Definition event : Type := call * Z.
Definition trace : Type := list event.

(** How a computation can end.  [Ret] is normal completion; [Exit] is a
  call of [exit()]; [Replaced] says that the last call of the trace
  never returned because it took the process over ([execv],
  [krun_start_enter]); [Fault] is an access outside an object, after
  which C gives the program no meaning. *)
Inductive outcome (A : Type) : Type :=
| Ret (a : A) (h : trace)
| Exit (status : Z) (h : trace)
| Replaced (h : trace)
| Fault (h : trace).

Arguments Exit {A}.
Arguments Replaced {A}.
Arguments Fault {A}.

Definition M (A : Type) : Type := trace -> outcome A.

Definition ret {A} (a : A) : M A := fun h => Ret a h.

Definition bind {A B} (m : M A) (k : A -> M B) : M B :=
fun h =>
  match m h with
  | Ret a h' => k a h'
  | Exit st h' => Exit st h'
  | Replaced h' => Replaced h'
  | Fault h' => Fault h'
  end.

Definition exit {A} (status : Z) : M A := fun h => Exit status h.
Definition fault {A} : M A := fun h => Fault h.

Definition trace_of {A} (o : outcome A) : trace :=
match o with
| Ret _ h | Exit _ h | Replaced h | Fault h => h
end.

Variable oracle : trace -> call -> Z.

(** A call that returns: its result is appended to the history. *)
Definition sys (c : call) : M Z :=
fun h => let r := oracle h c in Ret r (h ++ [(c, r)]).

(** A call that returns only when it fails.  The oracle answers [0] when
  the call takes the process over, and the (non-zero) error result
  otherwise. *)
Definition sys_noreturn (c : call) : M Z :=
fun h =>
  let r := oracle h c in
  if (r =? 0)%Z then Replaced (h ++ [(c, r)]) else Ret r (h ++ [(c, r)]).

End WithCalls.

Arguments Exit {call A}.
Arguments Replaced {call A}.
Arguments Fault {call A}.
Arguments trace : clear implicits.
Arguments event : clear implicits.
Arguments outcome : clear implicits.
Arguments M : clear implicits.

End Run.

Import Run.

(** A value together with the equation that remembers where it came from;
    used to keep the result of a loop body in the termination proof. *)
Definition inspect {A : Type} (a : A) : {b : A | a = b} := exist _ a eq_refl.

Declare Scope run_scope.
Delimit Scope run_scope with run.
Notation "x <- m ;; k" := (bind m (fun x => k))
  (at level 61, m at next level, right associativity) : run_scope.
Notation "' p <- m ;; k" := (bind m (fun x => let p := x in k))
  (at level 61, p pattern, m at next level, right associativity) : run_scope.
Notation "m ;; k" := (bind m (fun _ => k))
  (at level 61, right associativity) : run_scope.

(* ===================================================================== *)
(** ** The parts of libc the programs rely on *)
(* ===================================================================== *)

Module Libc.

Local Open Scope Z_scope.

(** [ULLONG_MAX] of <limits.h> on the LP64 targets libkrun supports. *)
Definition ULLONG_MAX : Z := 2 ^ 64 - 1.

(** Conversion of an [unsigned long long] to [int] (the type of the first
    parameter of [setrlimit]) and its reading as a [long long] (what the
    [%lld] conversion of [printf] prints). *)
Definition to_int (z : Z) : Z := (z + 2 ^ 31) mod 2 ^ 32 - 2 ^ 31.
Definition to_llong (z : Z) : Z := (z + 2 ^ 63) mod 2 ^ 64 - 2 ^ 63.

Definition NUL : ascii := Ascii.zero.

Definition is_nul (c : ascii) : bool := Ascii.eqb c NUL.

(** [isspace] and [isdigit] in the "C" locale. *)
Definition isspace (c : ascii) : bool :=
  let n := nat_of_ascii c in
  (Nat.eqb n 32 || (Nat.leb 9 n && Nat.leb n 13))%bool.

Definition isdigit (c : ascii) : bool :=
  let n := nat_of_ascii c in (Nat.leb 48 n && Nat.leb n 57)%bool.

Definition digit_value (c : ascii) : Z := Z.of_nat (nat_of_ascii c) - 48.

(** A C string is the list of its characters before the terminator.  The
    object holding it has one more byte, the NUL: index [length buf]
    reads as NUL and every larger index is outside the object. *)
Definition load (buf : list ascii) (i : nat) : option ascii :=
  if Nat.leb i (List.length buf) then Some (nth i buf NUL) else None.

Fixpoint take_while (p : ascii -> bool) (l : list ascii) : list ascii :=
  match l with
  | [] => []
  | c :: t => if p c then c :: take_while p t else []
  end.

Definition decimal (ds : list ascii) : Z :=
  fold_left (fun acc c => 10 * acc + digit_value c) ds 0.

(** The value [strtoull] returns for a digit run worth [v]: a value that
    does not fit is [ULLONG_MAX]; a minus sign negates modulo 2^64. *)
Definition strtoull_value (neg : bool) (v : Z) : Z :=
  if ULLONG_MAX <? v then ULLONG_MAX
  else if neg then (2 ^ 64 - v) mod 2 ^ 64
  else v.

(** [strtoull(nptr, &endptr, 10)] with [nptr = buf + pos].  The result
    is [None] when [nptr] is outside the string object; otherwise it is
    the converted value and the offset of [endptr].  As ISO C and glibc
    have it: leading white space is skipped, one sign is accepted, the
    longest run of decimal digits is converted; without a digit nothing
    is consumed and the value is 0. *)
Definition strtoull (buf : list ascii) (pos : nat) : option (Z * nat) :=
  if Nat.leb pos (List.length buf) then
    let s0 := skipn pos buf in
    let ws := List.length (take_while isspace s0) in
    let s1 := skipn ws s0 in
    let neg := match s1 with c :: _ => Ascii.eqb c "-" | [] => false end in
    let sg :=
      match s1 with
      | c :: _ => if (Ascii.eqb c "-" || Ascii.eqb c "+")%bool then 1%nat else 0%nat
      | [] => 0%nat
      end in
    let ds := take_while isdigit (skipn sg s1) in
    match ds with
    | [] => Some (0, pos)
    | _ :: _ =>
        Some (strtoull_value neg (decimal ds),
              (pos + ws + sg + List.length ds)%nat)
    end
  else None.

Lemma take_while_length p l : (List.length (take_while p l) <= List.length l)%nat.
Proof.
  induction l as [|c t IH]; simpl; [lia|].
  destruct (p c); simpl; lia.
Qed.

(** [strtoull] never moves [endptr] backwards nor past the terminator. *)
Lemma strtoull_bounds buf pos v q :
  strtoull buf pos = Some (v, q) -> (pos <= q <= List.length buf)%nat.
Proof.
  unfold strtoull.
  destruct (Nat.leb pos (List.length buf)) eqn:Hle; [|discriminate].
  apply Nat.leb_le in Hle.
  set (s0 := skipn pos buf).
  set (ws := List.length (take_while isspace s0)).
  set (s1 := skipn ws s0).
  set (sg := match s1 with
             | c :: _ => if (Ascii.eqb c "-" || Ascii.eqb c "+")%bool then 1%nat else 0%nat
             | [] => 0%nat
             end).
  assert (Hs0 : List.length s0 = (List.length buf - pos)%nat)
    by (unfold s0; apply length_skipn).
  assert (Hws : (ws <= List.length s0)%nat) by apply take_while_length.
  assert (Hs1 : List.length s1 = (List.length s0 - ws)%nat)
    by (unfold s1; apply length_skipn).
  assert (Hsg : (sg <= List.length s1)%nat).
  { unfold sg. destruct s1 as [|c t]; simpl; [lia|].
    destruct (Ascii.eqb c "-" || Ascii.eqb c "+")%bool; lia. }
  pose proof (take_while_length isdigit (skipn sg s1)) as Hds.
  rewrite length_skipn in Hds.
  destruct (take_while isdigit (skipn sg s1)) as [|d ds] eqn:Hd.
  - intros H. injection H as _ Hq. lia.
  - intros H. injection H as _ Hq. cbn [List.length] in Hds. lia.
Qed.

Lemma strtoull_in_bounds buf pos :
  (pos <= List.length buf)%nat -> exists v q, strtoull buf pos = Some (v, q).
Proof.
  intros Hle. unfold strtoull.
  apply Nat.leb_le in Hle. rewrite Hle.
  destruct (take_while isdigit _); eauto.
Qed.

Lemma strtoull_out_of_bounds buf pos :
  (List.length buf < pos)%nat -> strtoull buf pos = None.
Proof.
  intros Hlt. unfold strtoull.
  destruct (Nat.leb pos (List.length buf)) eqn:Hle; [|reflexivity].
  apply Nat.leb_le in Hle. lia.
Qed.

Lemma load_not_nul buf i c :
  load buf i = Some c -> is_nul c = false -> (i < List.length buf)%nat.
Proof.
  unfold load. destruct (Nat.leb i (List.length buf)) eqn:Hle; [|discriminate].
  apply Nat.leb_le in Hle. intros H Hc. inversion H; subst.
  destruct (Nat.eq_dec i (List.length buf)) as [->|]; [|lia].
  rewrite nth_overflow in Hc by lia. discriminate.
Qed.

Lemma load_in_bounds buf i :
  (i <= List.length buf)%nat -> load buf i = Some (nth i buf NUL).
Proof.
  intros Hle. unfold load. apply Nat.leb_le in Hle. now rewrite Hle.
Qed.

End Libc.

Import Libc.

(* ===================================================================== *)
(** ** init/init.c: the guest bootstrap process *)
(* ===================================================================== *)

Module Init.

Local Open Scope string_scope.
Local Open Scope Z_scope.

(** The process environment ([environ]): NAME=value entries in order. *)
Definition environ : Type := list (string * string).

Fixpoint getenv (name : string) (env : environ) : option string :=
  match env with
  | [] => None
  | (n, v) :: rest => if String.eqb n name then Some v else getenv name rest
  end.

(** What [init] asks of the kernel and of libc's output functions. *)
Inductive call : Type :=
| Mount (source target fstype : string) (flags : Z)
| Symlink (target linkpath : string)
| Sethostname (name : string) (len : Z)
| Setsid
| Ioctl (fd request arg : Z)
| Socket (domain type protocol : Z)
| IoctlIfreq (fd request : Z) (ifr_name : string) (ifr_flags : Z)
| Close (fd : Z)
| Setrlimit (resource : Z) (rlim_cur rlim_max : Z)
| Chdir (path : string)
| Execv (path : string) (argv : list string) (envp : environ)
| Printf (format : string) (args : list Z)
| Perror (msg : string).

(** Constants of the Linux headers. *)
Definition MS_NOSUID : Z := 2.
Definition MS_NODEV : Z := 4.
Definition MS_NOEXEC : Z := 8.
Definition MS_RELATIME : Z := 2097152.
Definition TIOCSCTTY : Z := 21518.
Definition SIOCSIFFLAGS : Z := 35092.
Definition AF_INET : Z := 2.
Definition SOCK_DGRAM : Z := 2.
Definition IFF_UP : Z := 1.

Definition DEFAULT_KRUN_INIT : string := "/iwasm".

Definition LF : string := String (ascii_of_nat 10) EmptyString.

Section WithKernel.

Variable kernel : trace call -> call -> Z.

Local Open Scope run_scope.

Section Rlimits.

(** The characters of the [rlimits] argument; [item] is an offset
    into them. *)
Variable buf : list ascii.

Definition strtoull_at (item : nat) : M call (Z * nat) :=
  match strtoull buf item with
  | Some r => ret r
  | None => fault
  end.

Definition load_at (item : nat) : M call ascii :=
  match load buf item with
  | Some c => ret c
  | None => fault
  end.

(** One turn of the [while (1)] loop of [set_rlimits]: [Some item']
    when the loop goes round again with [item'], [None] on [break]. *)
Definition set_rlimits_body (item : nat) : M call (option nat) :=
  '(lim_id, item) <- strtoull_at item ;;
  if lim_id =? ULLONG_MAX then
    sys kernel (Printf (String.append "Invalid rlimit ID" LF) []) ;;
    ret None
  else
    let item := S item in
    '(lim_cur, item) <- strtoull_at item ;;
    let item := S item in
    '(lim_max, item) <- strtoull_at item ;;
    r <- sys kernel (Setrlimit (to_int lim_id) lim_cur lim_max) ;;
    (if negb (r =? 0) then
       sys kernel (Printf (String.append "Error setting rlimit for ID=%lld" LF)
                          [to_llong lim_id]) ;;
       ret tt
     else ret tt) ;;
    c <- load_at item ;;
    if negb (is_nul c) then ret (Some (S item)) else ret None.

(** The body goes round again only with a strictly larger offset
    that is still inside the string. *)
Lemma set_rlimits_body_progress item h item' h' :
  set_rlimits_body item h = Ret (Some item') h' ->
  (item < item' <= List.length buf)%nat.
Proof.
  unfold set_rlimits_body, bind, strtoull_at, load_at, sys, ret, fault.
  destruct (strtoull buf item) as [[lim_id i1]|] eqn:H1; [|discriminate].
  destruct (lim_id =? ULLONG_MAX); [discriminate|].
  destruct (strtoull buf (S i1)) as [[lim_cur i2]|] eqn:H2; [|discriminate].
  destruct (strtoull buf (S i2)) as [[lim_max i3]|] eqn:H3; [|discriminate].
  apply strtoull_bounds in H1, H2, H3.
  destruct (negb (kernel h _ =? 0));
    (destruct (load buf i3) as [c|] eqn:Hl; [|discriminate];
     destruct (is_nul c) eqn:Hc; simpl; [discriminate|];
     intros H; inversion H; subst;
     apply load_not_nul in Hl; [lia|assumption]).
Qed.

(** The [while (1)] loop, started at offset [item]. *)
Equations? set_rlimits_loop (item : nat) (h : trace call) : outcome call unit
  by wf (S (List.length buf) - item)%nat lt :=
  set_rlimits_loop item h with inspect (set_rlimits_body item h) := {
    | exist _ (Ret (Some item') h') _ := set_rlimits_loop item' h';
    | exist _ (Ret None h') _ := Ret tt h';
    | exist _ (Exit st h') _ := Exit st h';
    | exist _ (Replaced h') _ := Replaced h';
    | exist _ (Fault h') _ := Fault h' }.
Proof.
  match goal with
  | H : set_rlimits_body _ _ = Ret (Some _) _ |- _ =>
      apply set_rlimits_body_progress in H
  end.
  destruct item' as [|j]; [lia|]. destruct item; lia.
Qed.

End Rlimits.

(** [void set_rlimits(const char *rlimits)]. *)
Definition set_rlimits (rlimits : string) : M call unit :=
  set_rlimits_loop (list_ascii_of_string rlimits) 0.

(** The program [init] hands over to. *)
Definition krun_init_path (env : environ) : string :=
  match getenv "KRUN_INIT" env with
  | Some krun_init => krun_init
  | None => DEFAULT_KRUN_INIT
  end.

(** [int main(int argc, char **argv)], run with the environment [env].
    [argv] lists the [argc] arguments.  With [argc = 0] the store to
    [argv[0]] overwrites the terminating null pointer and [execv] would
    read the vector past its end. *)
Definition main (env : environ) (argv : list string) : M call Z :=
  r <- sys kernel (Mount "proc" "/proc" "proc"
                     (Z.lor (Z.lor (Z.lor MS_NODEV MS_NOEXEC) MS_NOSUID)
                            MS_RELATIME)) ;;
  (if r <? 0 then
     sys kernel (Perror "mount(/proc)") ;;
     exit (-1)
   else ret tt) ;;
  sys kernel (Symlink "/proc/self/fd" "/dev/fd") ;;
  match getenv "HOSTNAME" env with
  | Some hostname =>
      sys kernel (Sethostname hostname (Z.of_nat (String.length hostname))) ;;
      ret tt
  | None => ret tt
  end ;;
  sys kernel Setsid ;;
  sys kernel (Ioctl 0 TIOCSCTTY 1) ;;
  sockfd <- sys kernel (Socket AF_INET SOCK_DGRAM 0) ;;
  (if 0 <=? sockfd then
     sys kernel (IoctlIfreq sockfd SIOCSIFFLAGS "lo" (Z.lor 0 IFF_UP)) ;;
     sys kernel (Close sockfd) ;;
     ret tt
   else ret tt) ;;
  match getenv "KRUN_RLIMITS" env with
  | Some rlimits => set_rlimits rlimits
  | None => ret tt
  end ;;
  match getenv "KRUN_WORKDIR" env with
  | Some workdir => sys kernel (Chdir workdir) ;; ret tt
  | None => ret tt
  end ;;
  let krun_init := krun_init_path env in
  match argv with
  | [] => fault
  | _ :: args =>
      let argv := krun_init :: args in
      sys_noreturn kernel (Execv krun_init argv env) ;;
      ret 0
  end.

End WithKernel.

End Init.

(* ===================================================================== *)
(** ** examples/chroot_vm.c: the host launcher *)
(* ===================================================================== *)

Module ChrootVm.

Local Open Scope string_scope.
Local Open Scope Z_scope.

(** What the launcher asks of libkrun and of libc. *)
Inductive call : Type :=
| Printf (format : string) (args : list string)
| Perror (msg : string) (errno : Z)
| KrunSetLogLevel (level : Z)
| KrunCreateCtx
| KrunSetVmConfig (ctx num_vcpus ram_mib : Z)
| KrunSetRoot (ctx : Z) (root_path : string)
| Getcwd (size : Z)
| Malloc (size : Z)
| KrunSetMappedVolumes (ctx : Z) (mapped_volumes : list string)
| KrunSetPortMap (ctx : Z) (port_map : list string)
| KrunSetRlimits (ctx : Z) (rlimits : list string)
| KrunSetWorkdir (ctx : Z) (workdir_path : string)
| KrunSetExec (ctx : Z) (exec_path : string) (argv envp : list string)
| KrunStartEnter (ctx : Z).

Definition MAX_PATH : Z := 4096.

Definition LF : string := String (ascii_of_nat 10) EmptyString.

Definition DQUOTE : string := String (ascii_of_nat 34) EmptyString.

(** [snprintf(buf, size, "%s%s", a, b)]: at most [size - 1] characters
    are stored. *)
Definition snprintf_ss (size : Z) (a b : string) : string :=
  substring 0 (Z.to_nat (size - 1)) (String.append a b).

Section WithHost.

(** The oracle for the calls, where [Getcwd] and [Malloc] answer [0]
    for a null pointer, and the directory [getcwd] stores on success. *)
Variable host : trace call -> call -> Z.
Variable current_dir : string.

Local Open Scope run_scope.

(** [int main(int argc, char *const argv[])]; [argc] is the length of
    [argv].  With [argc = 0] the pointer [argv[0]] is null, and the usage
    line would make [printf] read a string through it. *)
Definition main (argv : list string) : M call Z :=
  let envp := ["TEST=works"] in
  let port_map := ["18000:8000"] in
  let rlimits := ["6=4096:8192"] in
  let volume_tail := ":/work" in
  let argc := Z.of_nat (List.length argv) in
  if argc <? 3 then
    sys host (Printf (String.append "Invalid arguments" LF) []) ;;
    match argv with
    | [] => fault
    | argv0 :: _ =>
        sys host (Printf (String.append "Usage: %s NEWROOT COMMAND [ARG...]" LF)
                         [argv0]) ;;
        ret (-1)
    end
  else
  err <- sys host (KrunSetLogLevel 0) ;;
  if negb (err =? 0) then
    sys host (Perror "Error configuring log level" (- err)) ;;
    ret (-1)
  else
  ctx_id <- sys host KrunCreateCtx ;;
  if ctx_id <? 0 then
    sys host (Perror "Error creating configuration context" (- err)) ;;
    ret (-1)
  else
  err <- sys host (KrunSetVmConfig ctx_id 1 4096) ;;
  if negb (err =? 0) then
    sys host (Perror "Error configuring the number of vCPUs and/or the amount of RAM"
                     (- err)) ;;
    ret (-1)
  else
  err <- sys host (KrunSetRoot ctx_id (nth 1 argv "")) ;;
  if negb (err =? 0) then
    sys host (Perror "Error configuring root path" (- err)) ;;
    ret (-1)
  else
  cwd <- sys host (Getcwd MAX_PATH) ;;
  if cwd =? 0 then
    sys host (Perror "Error getting current directory" (- err)) ;;
    ret (-1)
  else
  let current_path := current_dir in
  let volume_len :=
    Z.of_nat (String.length current_path) +
    Z.of_nat (String.length volume_tail) + 1 in
  volume <- sys host (Malloc volume_len) ;;
  (if volume =? 0 then
     sys host (Perror "Error allocating memory for volume string" (- err)) ;;
     ret tt
   else ret tt) ;;
  (* snprintf stores through [volume] *)
  (if volume =? 0 then fault else ret tt) ;;
  let mapped_volumes := [snprintf_ss volume_len current_path volume_tail] in
  err <- sys host (KrunSetMappedVolumes ctx_id mapped_volumes) ;;
  if negb (err =? 0) then
    sys host (Perror "Error configuring mapped volumes" (- err)) ;;
    ret (-1)
  else
  err <- sys host (KrunSetPortMap ctx_id port_map) ;;
  if negb (err =? 0) then
    sys host (Perror "Error configuring port map" (- err)) ;;
    ret (-1)
  else
  err <- sys host (KrunSetRlimits ctx_id rlimits) ;;
  if negb (err =? 0) then
    sys host (Perror "Error configuring rlimits" (- err)) ;;
    ret (-1)
  else
  err <- sys host (KrunSetWorkdir ctx_id "/") ;;
  if negb (err =? 0) then
    sys host (Perror (String.append "Error configuring "
                        (String.append DQUOTE
                           (String.append "/"
                              (String.append DQUOTE " as working directory"))))
                     (- err)) ;;
    ret (-1)
  else
  err <- sys host (KrunSetExec ctx_id (nth 2 argv "") (skipn 3 argv) envp) ;;
  if negb (err =? 0) then
    sys host (Perror "Error configuring the parameters for the executable to be run"
                     (- err)) ;;
    ret (-1)
  else
  err <- sys_noreturn host (KrunStartEnter ctx_id) ;;
  if negb (err =? 0) then
    sys host (Perror "Error creating the microVM" (- err)) ;;
    ret (-1)
  else
  ret 0.

End WithHost.

End ChrootVm.

(* ===================================================================== *)
(** ** Facts about [set_rlimits] *)
(* ===================================================================== *)

Import Init.

Local Open Scope string_scope.
Local Open Scope Z_scope.
Local Open Scope list_scope.

(** The calls [set_rlimits] can make. *)
Definition rlimit_call (c : call) : bool :=
  match c with
  | Setrlimit _ _ _ | Printf _ _ => true
  | _ => false
  end.

(** The directives a trace applied, in order: the arguments of its
    [setrlimit] calls. *)
Fixpoint applied (h : trace call) : list (Z * Z * Z) :=
  match h with
  | [] => []
  | (Setrlimit id cur max, _) :: t => (id, cur, max) :: applied t
  | _ :: t => applied t
  end.

Definition invalid_id_call : call :=
  Printf (String.append "Invalid rlimit ID" LF) [].

Definition setrlimit_error_call (lim_id : Z) : call :=
  Printf (String.append "Error setting rlimit for ID=%lld" LF) [to_llong lim_id].

Section RlimitFacts.

Variable kernel : trace call -> call -> Z.
Variable buf : list ascii.

(** What one parsed directive appends to the history [h]: the
    [setrlimit] call and, when it failed, the line reporting it. *)
Definition apply_events (h : trace call) (lim_id lim_cur lim_max : Z) : trace call :=
  let c := Setrlimit (to_int lim_id) lim_cur lim_max in
  let r := kernel h c in
  if negb (r =? 0) then
    [(c, r);
     (setrlimit_error_call lim_id, kernel (h ++ [(c, r)]) (setrlimit_error_call lim_id))]
  else [(c, r)].

(** Where directive number [k] (counted from 0) starts when the loop is
    entered at [item] with history [h]: the offset and the history at the
    top of turn [k], if the loop gets that far. *)
Fixpoint directive_start (k : nat) (item : nat) (h : trace call)
  : option (nat * trace call) :=
  match k with
  | O => Some (item, h)
  | S k' =>
      match set_rlimits_body kernel buf item h with
      | Ret (Some item') h' => directive_start k' item' h'
      | _ => None
      end
  end.

Lemma set_rlimits_loop_unfold item h :
  set_rlimits_loop kernel buf item h =
  match set_rlimits_body kernel buf item h with
  | Ret (Some item') h' => set_rlimits_loop kernel buf item' h'
  | Ret None h' => Ret tt h'
  | Exit st h' => Exit st h'
  | Replaced h' => Replaced h'
  | Fault h' => Fault h'
  end.
Proof.
  funelim (set_rlimits_loop kernel buf item h);
    match goal with
    | H : set_rlimits_body _ _ _ _ = _ |- _ => rewrite H
    end; reflexivity.
Qed.

(** The turn of the loop on a directive whose three fields are read
    inside the string and whose id is not [ULLONG_MAX]. *)
Lemma body_parsed item h lim_id i1 lim_cur i2 lim_max i3 :
  strtoull buf item = Some (lim_id, i1) ->
  lim_id <> ULLONG_MAX ->
  strtoull buf (S i1) = Some (lim_cur, i2) ->
  strtoull buf (S i2) = Some (lim_max, i3) ->
  set_rlimits_body kernel buf item h =
  Ret (if negb (is_nul (nth i3 buf NUL)) then Some (S i3) else None)
      (h ++ apply_events h lim_id lim_cur lim_max).
Proof.
  intros H1 Hid H2 H3.
  unfold set_rlimits_body, bind, strtoull_at, load_at, sys, ret, apply_events.
  rewrite H1. apply Z.eqb_neq in Hid. rewrite Hid.
  rewrite H2, H3.
  apply strtoull_bounds in H3.
  rewrite load_in_bounds by lia.
  destruct (negb (kernel h _ =? 0)); destruct (negb (is_nul _));
    rewrite <- ?app_assoc; reflexivity.
Qed.

(** The turn of the loop on an id that reads as [ULLONG_MAX]. *)
Lemma body_invalid_id item h q :
  strtoull buf item = Some (ULLONG_MAX, q) ->
  set_rlimits_body kernel buf item h =
  Ret None (h ++ [(invalid_id_call, kernel h invalid_id_call)]).
Proof.
  intros H1.
  unfold set_rlimits_body, bind, strtoull_at, sys, ret.
  rewrite H1, Z.eqb_refl. reflexivity.
Qed.

(** Every turn ends in [Ret] or [Fault], and only adds calls of
    [setrlimit] and [printf] to the history. *)
Lemma body_shape item h :
  exists t, Forall (fun e => rlimit_call (fst e) = true) t /\
    ((exists next, set_rlimits_body kernel buf item h = Ret next (h ++ t)) \/
     set_rlimits_body kernel buf item h = Fault (h ++ t)).
Proof.
  destruct (strtoull buf item) as [[lim_id i1]|] eqn:H1.
  2:{ exists []. split; [constructor|]. right.
      unfold set_rlimits_body, bind, strtoull_at, fault.
      rewrite H1, app_nil_r. reflexivity. }
  destruct (Z.eq_dec lim_id ULLONG_MAX) as [->|Hid].
  { eexists. split; [|left; eexists; eapply body_invalid_id; eassumption].
    repeat constructor. }
  destruct (strtoull buf (S i1)) as [[lim_cur i2]|] eqn:H2.
  2:{ exists []. split; [constructor|]. right.
      unfold set_rlimits_body, bind, strtoull_at, fault, ret.
      apply Z.eqb_neq in Hid.
      rewrite H1, Hid, H2, app_nil_r. reflexivity. }
  destruct (strtoull buf (S i2)) as [[lim_max i3]|] eqn:H3.
  2:{ exists []. split; [constructor|]. right.
      unfold set_rlimits_body, bind, strtoull_at, fault, ret.
      apply Z.eqb_neq in Hid.
      rewrite H1, Hid, H2, H3, app_nil_r. reflexivity. }
  exists (apply_events h lim_id lim_cur lim_max). split.
  - unfold apply_events. destruct (negb _); repeat constructor.
  - left. eexists. eapply body_parsed; eassumption.
Qed.

(** The loop ends, in [Ret] or in [Fault], and only adds calls of
    [setrlimit] and [printf] to the history. *)
Lemma loop_shape item h :
  exists t, Forall (fun e => rlimit_call (fst e) = true) t /\
    (set_rlimits_loop kernel buf item h = Ret tt (h ++ t) \/
     set_rlimits_loop kernel buf item h = Fault (h ++ t)).
Proof.
  funelim (set_rlimits_loop kernel buf item h);
    match goal with
    | H : set_rlimits_body _ _ ?i ?h = _ |- _ =>
        let E := fresh "E" in
        pose proof H as E;
        destruct (body_shape i h) as (t & Ht & [[next Hb] | Hb]);
        rewrite Hb in E; inversion E; subst
    end.
  - match goal with
    | IH : exists _, _ |- _ => destruct IH as (t' & Ht' & Hl)
    end.
    exists (t ++ t'). split; [apply Forall_app; auto|].
    rewrite app_assoc. exact Hl.
  - exists t. auto.
  - exists t. auto.
Qed.

(** The loop run from the start is the loop run from the top of any
    directive it reaches. *)
Lemma loop_from_directive k : forall item h item' h',
  directive_start k item h = Some (item', h') ->
  set_rlimits_loop kernel buf item h = set_rlimits_loop kernel buf item' h'.
Proof.
  induction k as [|k IH]; simpl; intros item h item' h' H.
  - inversion H; subst. reflexivity.
  - rewrite set_rlimits_loop_unfold.
    destruct (set_rlimits_body kernel buf item h) as [[next|] h1| | |];
      try discriminate.
    apply IH. exact H.
Qed.

(** Directives start at strictly increasing offsets inside the string,
    and the history only grows. *)
Lemma directive_start_mono k : forall item h item' h',
  directive_start k item h = Some (item', h') ->
  (item + k <= item')%nat /\ exists t, h' = h ++ t.
Proof.
  induction k as [|k IH]; simpl; intros item h item' h' H.
  - inversion H; subst. split; [lia|]. exists []. now rewrite app_nil_r.
  - destruct (set_rlimits_body kernel buf item h) as [[next|] h1| | |] eqn:Hb;
      try discriminate.
    pose proof (set_rlimits_body_progress _ _ _ _ Hb) as Hp.
    destruct (body_shape item h) as (t & _ & [[nx Hs] | Hs]);
      rewrite Hs in Hb; inversion Hb; subst.
    destruct (IH _ _ _ _ H) as (Hle & t' & ->).
    split; [lia|]. exists (t ++ t'). now rewrite app_assoc.
Qed.

End RlimitFacts.

Section RlimitRuns.

Variable kernel : trace call -> call -> Z.
Variable buf : list ascii.

Lemma directive_start_S k : forall item h,
  directive_start kernel buf (S k) item h =
  match directive_start kernel buf k item h with
  | Some (i, h') =>
      match set_rlimits_body kernel buf i h' with
      | Ret (Some i') h'' => Some (i', h'')
      | _ => None
      end
  | None => None
  end.
Proof.
  induction k as [|k IH]; intros item h.
  - simpl. destruct (set_rlimits_body kernel buf item h) as [[next|] h1| | |];
      reflexivity.
  - change (directive_start kernel buf (S (S k)) item h)
      with (match set_rlimits_body kernel buf item h with
            | Ret (Some item') h' => directive_start kernel buf (S k) item' h'
            | _ => None
            end).
    destruct (set_rlimits_body kernel buf item h) as [[next|] h1| | |] eqn:Hb;
      simpl; rewrite Hb; try reflexivity.
    apply IH.
Qed.

Lemma loop_trace item h :
  exists t, trace_of (set_rlimits_loop kernel buf item h) = h ++ t.
Proof.
  destruct (loop_shape kernel buf item h) as (t & _ & [-> | ->]);
    exists t; reflexivity.
Qed.

Lemma loop_never_exits item h st t :
  set_rlimits_loop kernel buf item h <> Exit st t.
Proof.
  destruct (loop_shape kernel buf item h) as (t' & _ & [-> | ->]); discriminate.
Qed.

Lemma loop_never_replaced item h t :
  set_rlimits_loop kernel buf item h <> Replaced t.
Proof.
  destruct (loop_shape kernel buf item h) as (t' & _ & [-> | ->]); discriminate.
Qed.

(** A directive that is reached and parsed leaves its events in the
    trace of the whole run. *)
Lemma parsed_directive_in_run k item0 h0 item h lim_id i1 lim_cur i2 lim_max i3 :
  directive_start kernel buf k item0 h0 = Some (item, h) ->
  strtoull buf item = Some (lim_id, i1) ->
  lim_id <> ULLONG_MAX ->
  strtoull buf (S i1) = Some (lim_cur, i2) ->
  strtoull buf (S i2) = Some (lim_max, i3) ->
  exists t, trace_of (set_rlimits_loop kernel buf item0 h0) =
            (h ++ apply_events kernel h lim_id lim_cur lim_max) ++ t.
Proof.
  intros Hk H1 Hid H2 H3.
  rewrite (loop_from_directive kernel buf k _ _ Hk).
  rewrite set_rlimits_loop_unfold.
  rewrite (body_parsed kernel buf item h H1 Hid H2 H3).
  destruct (negb (is_nul (nth i3 buf NUL))).
  - apply loop_trace.
  - exists []. simpl. now rewrite app_nil_r.
Qed.

End RlimitRuns.

(** Every directive the loop reaches from offset 0 starts inside the
    string. *)
Lemma directive_start_in_bounds kernel buf k item h0 h :
  directive_start kernel buf k 0 h0 = Some (item, h) ->
  (item <= List.length buf)%nat.
Proof.
  destruct k as [|k]; intros Hk.
  - inversion Hk; subst. lia.
  - rewrite directive_start_S in Hk.
    destruct (directive_start kernel buf k 0 h0) as [[i h']|]; [|discriminate].
    destruct (set_rlimits_body kernel buf i h') as [[next|] h1| | |] eqn:Hb;
      try discriminate.
    inversion Hk; subst.
    apply set_rlimits_body_progress in Hb. lia.
Qed.

(** Text that [strtoull] can convert: after white space and at most one
    sign it starts with a decimal digit. *)
Definition numeric_text (l : list ascii) : bool :=
  let l1 := skipn (List.length (take_while isspace l)) l in
  let l2 :=
    match l1 with
    | c :: t => if (Ascii.eqb c "-" || Ascii.eqb c "+")%bool then t else l1
    | [] => []
    end in
  match l2 with
  | c :: _ => isdigit c
  | [] => false
  end.

Lemma strtoull_non_numeric buf item :
  (item <= List.length buf)%nat ->
  numeric_text (skipn item buf) = false ->
  strtoull buf item = Some (0, item).
Proof.
  intros Hle Hn. unfold strtoull, numeric_text in *.
  apply Nat.leb_le in Hle. rewrite Hle.
  set (s1 := skipn (List.length (take_while isspace (skipn item buf)))
                   (skipn item buf)) in *.
  assert (Hd : take_while isdigit
                 (skipn match s1 with
                        | c :: _ =>
                            if (Ascii.eqb c "-" || Ascii.eqb c "+")%bool
                            then 1%nat else 0%nat
                        | [] => 0%nat
                        end s1) = []).
  { destruct s1 as [|c t]; [reflexivity|].
    destruct (Ascii.eqb c "-" || Ascii.eqb c "+")%bool.
    - simpl. destruct t as [|d t']; [reflexivity|].
      simpl. now rewrite Hn.
    - simpl. now rewrite Hn. }
  rewrite Hd. reflexivity.
Qed.

Lemma applied_app h1 h2 : applied (h1 ++ h2) = applied h1 ++ applied h2.
Proof.
  induction h1 as [|[c r] t IH]; simpl; [reflexivity|].
  destruct c; simpl; rewrite IH; reflexivity.
Qed.

Lemma directive_start_add kernel buf j : forall d item h,
  directive_start kernel buf (j + d) item h =
  match directive_start kernel buf j item h with
  | Some (i, h') => directive_start kernel buf d i h'
  | None => None
  end.
Proof.
  induction j as [|j IH]; intros d item h; simpl; [reflexivity|].
  destruct (set_rlimits_body kernel buf item h) as [[next|] h1| | |];
    try reflexivity.
  apply IH.
Qed.

(** Kernels used to run the programs on concrete inputs: one on which
    every call succeeds, one on which every [setrlimit] is refused. *)
Definition willing_kernel : trace call -> call -> Z := fun _ _ => 0.

Definition refusing_kernel : trace call -> call -> Z :=
  fun _ c =>
    match c with
    | Setrlimit _ _ _ => -1
    | _ => 0
    end.

(** The id field of a directive, as the wire format [id=soft:hard] has it:
    the text before the first [=]; it names a resource class when it is a
    non-empty run of decimal digits. *)
Definition id_field (directive : list ascii) : list ascii :=
  take_while (fun c => negb (Ascii.eqb c "=")) directive.

Definition wellformed_id (field : list ascii) : bool :=
  (negb (Nat.eqb (List.length field) 0) && forallb isdigit field)%bool.

(* --------------------------------------------------------------------- *)
(** *** C2 *)

(** C2 fails on the code: the id field [abc] of the directive string
    [abc=1:2] is malformed, yet the guard that prints "Invalid rlimit ID"
    does not fire, because [strtoull] returns 0 and not [ULLONG_MAX] for
    text it cannot convert: parsing is not aborted, and two directives
    derived from the text at and after the malformed id are applied, both
    to resource 0. *)
Theorem malformed_id_not_aborted :
  wellformed_id (id_field (list_ascii_of_string "abc=1:2")) = false /\
  set_rlimits willing_kernel "abc=1:2" [] =
    Ret tt [(Setrlimit 0 0 0, 0); (Setrlimit 0 1 2, 0)] /\
  applied (trace_of (set_rlimits willing_kernel "abc=1:2" [])) =
    [(0, 0, 0); (0, 1, 2)].
Proof. repeat split; reflexivity. Qed.

(** What the guard does catch: an id field that [strtoull] reads as
    [ULLONG_MAX].  When directive [k] starts at offset [item] with history
    [h] and its id reads as [ULLONG_MAX], the whole call returns with [h]
    followed by the line "Invalid rlimit ID" only: nothing at or after
    that id is applied, what was applied before remains, and every
    earlier directive started at a strictly smaller offset with a shorter
    history. *)
Lemma ullong_max_id_aborts kernel s h0 k item h q :
  directive_start kernel (list_ascii_of_string s) k 0 h0 = Some (item, h) ->
  strtoull (list_ascii_of_string s) item = Some (ULLONG_MAX, q) ->
  set_rlimits kernel s h0 =
    Ret tt (h ++ [(invalid_id_call, kernel h invalid_id_call)]) /\
  applied (trace_of (set_rlimits kernel s h0)) = applied h /\
  (exists t, h = h0 ++ t) /\
  (forall j item_j h_j,
      (j < k)%nat ->
      directive_start kernel (list_ascii_of_string s) j 0 h0 = Some (item_j, h_j) ->
      (item_j < item)%nat /\ exists t, h = h_j ++ t).
Proof.
  intros Hk Hid.
  assert (Hrun : set_rlimits kernel s h0 =
                 Ret tt (h ++ [(invalid_id_call, kernel h invalid_id_call)])).
  { unfold set_rlimits.
    rewrite (loop_from_directive _ _ _ _ _ Hk), set_rlimits_loop_unfold.
    now rewrite (body_invalid_id kernel _ _ h Hid). }
  split; [exact Hrun|]. split; [|split].
  - rewrite Hrun. simpl. rewrite applied_app. simpl. apply app_nil_r.
  - apply (directive_start_mono _ _ _ _ _ Hk).
  - intros j item_j h_j Hj Hs.
    replace k with (j + (k - j))%nat in Hk by lia.
    rewrite directive_start_add, Hs in Hk.
    apply directive_start_mono in Hk. destruct Hk as [Hle Ht].
    split; [lia|exact Ht].
Qed.

(** The second directive of [6=1:2;-1=3:4;7=5:6] has the id [-1], which
    reads as [ULLONG_MAX]: only the first directive is applied. *)
Lemma ullong_max_id_aborts_witness :
  directive_start willing_kernel (list_ascii_of_string "6=1:2;-1=3:4;7=5:6") 1 0 [] =
    Some (6%nat, [(Setrlimit 6 1 2, 0)]) /\
  strtoull (list_ascii_of_string "6=1:2;-1=3:4;7=5:6") 6 = Some (ULLONG_MAX, 8%nat) /\
  set_rlimits willing_kernel "6=1:2;-1=3:4;7=5:6" [] =
    Ret tt [(Setrlimit 6 1 2, 0); (invalid_id_call, 0)].
Proof.
  split; [reflexivity|]. split; [reflexivity|].
  apply (ullong_max_id_aborts willing_kernel "6=1:2;-1=3:4;7=5:6" []
           1 (item := 6) (h := [(Setrlimit 6 1 2, 0)]) (q := 8));
    reflexivity.
Defined.

(* --------------------------------------------------------------------- *)
(** *** C3 *)

(** C3 fails on the code: on ["6=4096"] the second [item++] steps over the
    terminator, and the third [strtoull] reads outside the string.  No
    [setrlimit] call has been made by then. *)
Theorem missing_hard_limit_reads_past_end kernel h :
  set_rlimits kernel "6=4096" h = Fault h /\
  strtoull (list_ascii_of_string "6=4096") 0 = Some (6, 1%nat) /\
  strtoull (list_ascii_of_string "6=4096") 2 = Some (4096, 6%nat) /\
  List.length (list_ascii_of_string "6=4096") = 6%nat /\
  strtoull (list_ascii_of_string "6=4096") 7 = None.
Proof. repeat split; reflexivity. Qed.

(* --------------------------------------------------------------------- *)
(** *** C4 *)

(** C4: whatever the kernel answers and whatever happened before,
    ["6=4096:8192"] makes exactly one [setrlimit] call, for resource 6 with
    limits 4096 and 8192, and ["6=4096:8192;7=10:20"] makes exactly two,
    that one and then resource 7 with limits 10 and 20; [set_rlimits]
    returns on both. *)
Theorem wellformed_strings_applied kernel h :
  (exists t, set_rlimits kernel "6=4096:8192" h = Ret tt (h ++ t) /\
             applied t = [(6, 4096, 8192)]) /\
  (exists t, set_rlimits kernel "6=4096:8192;7=10:20" h = Ret tt (h ++ t) /\
             applied t = [(6, 4096, 8192); (7, 10, 20)]).
Proof.
  split.
  - unfold set_rlimits. rewrite set_rlimits_loop_unfold.
    rewrite (body_parsed kernel _ 0 h (lim_id := 6) (i1 := 1)
               (lim_cur := 4096) (i2 := 6) (lim_max := 8192) (i3 := 11))
      by (reflexivity || discriminate).
    simpl negb. cbv iota.
    eexists. split; [reflexivity|].
    unfold apply_events. destruct (negb _); reflexivity.
  - unfold set_rlimits. rewrite set_rlimits_loop_unfold.
    rewrite (body_parsed kernel _ 0 h (lim_id := 6) (i1 := 1)
               (lim_cur := 4096) (i2 := 6) (lim_max := 8192) (i3 := 11))
      by (reflexivity || discriminate).
    simpl negb. cbv iota.
    rewrite set_rlimits_loop_unfold.
    rewrite (body_parsed kernel _ 12 _ (lim_id := 7) (i1 := 13)
               (lim_cur := 10) (i2 := 16) (lim_max := 20) (i3 := 19))
      by (reflexivity || discriminate).
    simpl negb. cbv iota.
    rewrite <- app_assoc.
    eexists. split; [reflexivity|].
    rewrite applied_app.
    unfold apply_events.
    destruct (negb (kernel h _ =? 0)); destruct (negb (kernel _ _ =? 0));
      reflexivity.
Qed.

(* --------------------------------------------------------------------- *)
(** *** C5 *)

(** C5: when directive [k] of a string is reached and parsed (its id is
    not [ULLONG_MAX] and its three fields are read inside the string) and
    the kernel refuses its [setrlimit] call, the refusal is reported with
    [printf], the run does not call [exit], and when the directive is
    followed by more text directive [k+1] starts right after it, with the
    same offset as after a successful call; if that one parses, its
    [setrlimit] call is the next event of the run. *)
Theorem failed_setrlimit_does_not_stop_parsing
    kernel s h0 k item h lim_id i1 lim_cur i2 lim_max i3 :
  directive_start kernel (list_ascii_of_string s) k 0 h0 = Some (item, h) ->
  strtoull (list_ascii_of_string s) item = Some (lim_id, i1) ->
  lim_id <> ULLONG_MAX ->
  strtoull (list_ascii_of_string s) (S i1) = Some (lim_cur, i2) ->
  strtoull (list_ascii_of_string s) (S i2) = Some (lim_max, i3) ->
  kernel h (Setrlimit (to_int lim_id) lim_cur lim_max) <> 0 ->
  let c := Setrlimit (to_int lim_id) lim_cur lim_max in
  let h1 := h ++ [(c, kernel h c)] in
  let h2 := h1 ++ [(setrlimit_error_call lim_id,
                    kernel h1 (setrlimit_error_call lim_id))] in
  (exists t, trace_of (set_rlimits kernel s h0) = h2 ++ t) /\
  (forall st t, set_rlimits kernel s h0 <> Exit st t) /\
  (is_nul (nth i3 (list_ascii_of_string s) NUL) = false ->
   directive_start kernel (list_ascii_of_string s) (S k) 0 h0 = Some (S i3, h2) /\
   forall id' j1 cur' j2 max' j3,
     strtoull (list_ascii_of_string s) (S i3) = Some (id', j1) ->
     id' <> ULLONG_MAX ->
     strtoull (list_ascii_of_string s) (S j1) = Some (cur', j2) ->
     strtoull (list_ascii_of_string s) (S j2) = Some (max', j3) ->
     exists t, trace_of (set_rlimits kernel s h0) =
               h2 ++ (Setrlimit (to_int id') cur' max',
                      kernel h2 (Setrlimit (to_int id') cur' max')) :: t).
Proof.
  intros Hk H1 Hid H2 H3 Hfail c h1 h2.
  set (buf := list_ascii_of_string s) in *.
  assert (Hev : h ++ apply_events kernel h lim_id lim_cur lim_max = h2).
  { unfold apply_events, h2, h1, c. cbv zeta.
    apply Z.eqb_neq in Hfail. rewrite Hfail.
    simpl negb. cbv iota. now rewrite <- app_assoc. }
  split; [|split].
  - destruct (parsed_directive_in_run kernel buf k 0 h0 Hk H1 Hid H2 H3)
      as [t Ht].
    exists t. rewrite <- Hev. exact Ht.
  - intros st t. apply loop_never_exits.
  - intros Hnul.
    assert (Hnext : directive_start kernel buf (S k) 0 h0 = Some (S i3, h2)).
    { rewrite directive_start_S, Hk.
      rewrite (body_parsed kernel buf item h H1 Hid H2 H3), Hnul, Hev.
      reflexivity. }
    split; [exact Hnext|].
    intros id' j1 cur' j2 max' j3 G1 Gid G2 G3.
    destruct (parsed_directive_in_run kernel buf (S k) 0 h0 Hnext G1 Gid G2 G3)
      as [t Ht].
    unfold set_rlimits. fold buf. rewrite Ht.
    unfold apply_events.
    destruct (negb (kernel h2 _ =? 0)); rewrite <- app_assoc; simpl;
      eexists; reflexivity.
Qed.

(** On the refusing kernel the first directive of [6=4096:8192;7=10:20]
    fails and the second one is attempted all the same. *)
Lemma failed_setrlimit_does_not_stop_parsing_witness :
  directive_start refusing_kernel (list_ascii_of_string "6=4096:8192;7=10:20") 0 0 [] =
    Some (0%nat, []) /\
  refusing_kernel [] (Setrlimit (to_int 6) 4096 8192) <> 0 /\
  directive_start refusing_kernel (list_ascii_of_string "6=4096:8192;7=10:20") 1 0 [] =
    Some (12%nat, [(Setrlimit 6 4096 8192, -1); (setrlimit_error_call 6, 0)]) /\
  exists t, trace_of (set_rlimits refusing_kernel "6=4096:8192;7=10:20" []) =
            [(Setrlimit 6 4096 8192, -1); (setrlimit_error_call 6, 0)] ++
            (Setrlimit 7 10 20, -1) :: t.
Proof.
  split; [reflexivity|]. split; [discriminate|].
  pose proof (failed_setrlimit_does_not_stop_parsing
                refusing_kernel "6=4096:8192;7=10:20" [] 0
                (item := 0) (h := []) (lim_id := 6) (i1 := 1)
                (lim_cur := 4096) (i2 := 6) (lim_max := 8192) (i3 := 11)
                eq_refl eq_refl ltac:(discriminate) eq_refl eq_refl
                ltac:(discriminate)) as (_ & _ & Hnext).
  destruct (Hnext eq_refl) as [Hstart Hattempt].
  split; [exact Hstart|].
  exact (Hattempt 7 13%nat 10 16%nat 20 19%nat eq_refl ltac:(discriminate)
           eq_refl eq_refl).
Defined.

(* --------------------------------------------------------------------- *)
(** *** C10 *)

(** C10: the turn of the loop stops on the id with "Invalid rlimit ID"
    exactly when [strtoull] read the id as [ULLONG_MAX].  On an id field
    that is not numeric text [strtoull] returns 0 and consumes nothing,
    the loop is not aborted, the next two fields are read at the next
    offsets, and as soon as they are read inside the string [setrlimit] is
    called for resource 0, an event of the whole run. *)
Theorem non_numeric_id_is_resource_zero
    kernel s h0 k item h lim_cur i2 lim_max i3 :
  directive_start kernel (list_ascii_of_string s) k 0 h0 = Some (item, h) ->
  numeric_text (skipn item (list_ascii_of_string s)) = false ->
  strtoull (list_ascii_of_string s) (S item) = Some (lim_cur, i2) ->
  strtoull (list_ascii_of_string s) (S i2) = Some (lim_max, i3) ->
  strtoull (list_ascii_of_string s) item = Some (0, item) /\
  (forall p g,
      (p <= List.length (list_ascii_of_string s))%nat ->
      (trace_of (set_rlimits_body kernel (list_ascii_of_string s) p g) =
         g ++ [(invalid_id_call, kernel g invalid_id_call)]
       <-> exists q, strtoull (list_ascii_of_string s) p = Some (ULLONG_MAX, q))) /\
  set_rlimits_body kernel (list_ascii_of_string s) item h =
    Ret (if negb (is_nul (nth i3 (list_ascii_of_string s) NUL))
         then Some (S i3) else None)
        (h ++ apply_events kernel h 0 lim_cur lim_max) /\
  exists t, trace_of (set_rlimits kernel s h0) =
            h ++ (Setrlimit 0 lim_cur lim_max,
                  kernel h (Setrlimit 0 lim_cur lim_max)) :: t.
Proof.
  intros Hk Hn H2 H3.
  set (buf := list_ascii_of_string s) in *.
  pose proof (directive_start_in_bounds _ _ _ _ Hk) as Hle.
  pose proof (@strtoull_non_numeric buf item Hle Hn) as H1.
  assert (H0 : (0 : Z) <> ULLONG_MAX) by discriminate.
  split; [exact H1|]. split; [|split].
  - intros p g Hp. split.
    + intros Ht.
      destruct (@strtoull_in_bounds buf p Hp) as (v & q & Hv).
      destruct (Z.eq_dec v ULLONG_MAX) as [->|Hne]; [eauto|exfalso].
      destruct (strtoull buf (S q)) as [[cur q2]|] eqn:E2.
      * destruct (strtoull buf (S q2)) as [[mx q3]|] eqn:E3.
        -- rewrite (body_parsed kernel buf p g Hv Hne E2 E3) in Ht.
           simpl in Ht. apply app_inv_head in Ht.
           unfold apply_events in Ht.
           destruct (negb _); discriminate.
        -- unfold set_rlimits_body, bind, strtoull_at, fault, ret in Ht.
           apply Z.eqb_neq in Hne. rewrite Hv, Hne, E2, E3 in Ht.
           simpl in Ht. rewrite <- (app_nil_r g) in Ht at 1.
           apply app_inv_head in Ht. discriminate.
      * unfold set_rlimits_body, bind, strtoull_at, fault, ret in Ht.
        apply Z.eqb_neq in Hne. rewrite Hv, Hne, E2 in Ht.
        simpl in Ht. rewrite <- (app_nil_r g) in Ht at 1.
        apply app_inv_head in Ht. discriminate.
    + intros [q Hq]. now rewrite (body_invalid_id kernel buf p g Hq).
  - exact (body_parsed kernel buf item h H1 H0 H2 H3).
  - destruct (parsed_directive_in_run kernel buf k 0 h0 Hk H1 H0 H2 H3)
      as [t Ht].
    unfold set_rlimits. fold buf. rewrite Ht.
    unfold apply_events. change (to_int 0) with 0.
    destruct (negb (kernel h _ =? 0)); rewrite <- app_assoc; simpl;
      eexists; reflexivity.
Qed.

(** On [x=1:2] the id reads as 0 without consuming the [x], so that the
    fields read next are [0] (empty, before the [=]) and [1]. *)
Lemma non_numeric_id_is_resource_zero_witness :
  numeric_text (skipn 0 (list_ascii_of_string "x=1:2")) = false /\
  strtoull (list_ascii_of_string "x=1:2") 0 = Some (0, 0%nat) /\
  exists t, trace_of (set_rlimits willing_kernel "x=1:2" []) =
            [] ++ (Setrlimit 0 0 1, 0) :: t.
Proof.
  split; [reflexivity|].
  pose proof (non_numeric_id_is_resource_zero
                willing_kernel "x=1:2" [] 0 (item := 0) (h := [])
                (lim_cur := 0) (i2 := 1) (lim_max := 1) (i3 := 3)
                eq_refl eq_refl eq_refl eq_refl)
    as (Hz & _ & _ & Hrun).
  split; [exact Hz|exact Hrun].
Defined.

(* ===================================================================== *)
(** ** Reasoning about runs step by step *)
(* ===================================================================== *)

Module RunFacts.
Section Wp.

Context {call : Type}.
Variable oracle : trace call -> call -> Z.

(** [wp m Q h]: run from the history [h], [m] ends in an outcome that
  satisfies [Q]. *)
Definition wp {A} (m : M call A) (Q : outcome call A -> Prop)
  (h : trace call) : Prop :=
Q (m h).

(** What [Q] asks of [m] when [k] runs after it. *)
Definition after {A B} (k : A -> M call B) (Q : outcome call B -> Prop)
: outcome call A -> Prop :=
fun o =>
  match o with
  | Ret a h' => wp (k a) Q h'
  | Exit st h' => Q (Exit st h')
  | Replaced h' => Q (Replaced h')
  | Fault h' => Q (Fault h')
  end.

Lemma wp_bind {A B} (m : M call A) (k : A -> M call B) Q h :
wp m (after k Q) h -> wp (bind m k) Q h.
Proof. unfold wp, after, bind. destruct (m h); auto. Qed.

Lemma wp_ret {A} (a : A) (Q : outcome call A -> Prop) h :
Q (Ret a h) -> wp (ret a) Q h.
Proof. auto. Qed.

Lemma wp_exit {A} st (Q : outcome call A -> Prop) h :
Q (Exit st h) -> wp (exit st) Q h.
Proof. auto. Qed.

Lemma wp_fault {A} (Q : outcome call A -> Prop) h :
Q (Fault h) -> wp fault Q h.
Proof. auto. Qed.

(** A call may return anything. *)
Lemma wp_sys c (Q : outcome call Z -> Prop) h :
(forall r, Q (Ret r (h ++ [(c, r)]))) -> wp (sys oracle c) Q h.
Proof. unfold wp, sys. auto. Qed.

Lemma wp_sys_exact c (Q : outcome call Z -> Prop) h :
Q (Ret (oracle h c) (h ++ [(c, oracle h c)])) -> wp (sys oracle c) Q h.
Proof. auto. Qed.

Lemma wp_sys_noreturn c (Q : outcome call Z -> Prop) h :
Q (Replaced (h ++ [(c, 0)])) ->
(forall r, r <> 0 -> Q (Ret r (h ++ [(c, r)]))) ->
wp (sys_noreturn oracle c) Q h.
Proof.
unfold wp, sys_noreturn. intros H0 Hr.
destruct (oracle h c =? 0) eqn:E.
- apply Z.eqb_eq in E. rewrite E. exact H0.
- apply Z.eqb_neq in E. auto.
Qed.

End Wp.
End RunFacts.

Import RunFacts.

(** One step of symbolic execution of a run. *)
Ltac run_step :=
  lazymatch goal with
  | |- wp (bind _ _) _ _ => apply wp_bind
  | |- wp (sys _ _) _ _ => apply wp_sys; intros ?r
  | |- wp (sys_noreturn _ _) _ _ => apply wp_sys_noreturn; [|intros ?r ?Hr]
  | |- wp (ret _) _ _ => apply wp_ret
  | |- wp (exit _) _ _ => apply wp_exit
  | |- wp fault _ _ => apply wp_fault
  | |- wp (match ?o with Some _ => _ | None => _ end) _ _ => destruct o eqn:?
  | |- wp (if ?b then _ else _) _ _ => destruct b eqn:?
  | |- wp (match ?l with [] => _ | _ :: _ => _ end) _ _ => destruct l eqn:?
  | |- after _ _ _ => unfold after at 1
  end.

(* ===================================================================== *)
(** ** Facts about [init]'s [main] *)
(* ===================================================================== *)

Definition mount_call : call :=
  Mount "proc" "/proc" "proc"
        (Z.lor (Z.lor (Z.lor MS_NODEV MS_NOEXEC) MS_NOSUID) MS_RELATIME).

Definition exec_call (env : environ) (argv : list string) : call :=
  Execv (krun_init_path env) (krun_init_path env :: tl argv) env.

Definition is_execv (c : call) : bool :=
  match c with
  | Execv _ _ _ => true
  | _ => false
  end.

Definition faulted {A} (o : outcome call A) : bool :=
  match o with
  | Fault _ => true
  | _ => false
  end.

(** The calls of the setup steps between the mount and the exec, each
    with the condition under which [main] makes it. *)
Definition setup_call (env : environ) (c : call) : Prop :=
  match c with
  | Symlink target linkpath => target = "/proc/self/fd" /\ linkpath = "/dev/fd"
  | Sethostname name len =>
      getenv "HOSTNAME" env = Some name /\ len = Z.of_nat (String.length name)
  | Setsid => True
  | Ioctl fd request arg => fd = 0 /\ request = TIOCSCTTY /\ arg = 1
  | Socket domain type protocol =>
      domain = AF_INET /\ type = SOCK_DGRAM /\ protocol = 0
  | IoctlIfreq fd request name flags =>
      0 <= fd /\ request = SIOCSIFFLAGS /\ name = "lo" /\ flags = IFF_UP
  | Close fd => 0 <= fd
  | Setrlimit _ _ _ | Printf _ _ => getenv "KRUN_RLIMITS" env <> None
  | Chdir path => getenv "KRUN_WORKDIR" env = Some path
  | Mount _ _ _ _ | Execv _ _ _ | Perror _ => False
  end.

(** A history made of the mount, with result [r], and setup calls. *)
Definition setup_history (env : environ) (r : Z) (h : trace call) : Prop :=
  exists t, h = (mount_call, r) :: t /\ Forall (fun e => setup_call env (fst e)) t.

(** Every way a run of [main] can end. *)
Inductive main_outcome (kernel : trace call -> call -> Z) (env : environ)
    (argv : list string) (r : Z) : outcome call Z -> Prop :=
| MountFailed r' :
    r < 0 ->
    main_outcome kernel env argv r
      (Exit (-1) [(mount_call, r); (Perror "mount(/proc)", r')])
| RlimitsFault s hs h :
    0 <= r -> setup_history env r h ->
    getenv "KRUN_RLIMITS" env = Some s ->
    set_rlimits kernel s hs = Fault h ->
    main_outcome kernel env argv r (Fault h)
| NoArguments h :
    0 <= r -> setup_history env r h -> argv = [] ->
    main_outcome kernel env argv r (Fault h)
| ExecReturned h e :
    0 <= r -> setup_history env r h -> argv <> [] -> e <> 0 ->
    main_outcome kernel env argv r (Ret 0 (h ++ [(exec_call env argv, e)]))
| ExecReplaced h :
    0 <= r -> setup_history env r h -> argv <> [] ->
    main_outcome kernel env argv r (Replaced (h ++ [(exec_call env argv, 0)])).

Lemma setup_history_mount env r : setup_history env r ([] ++ [(mount_call, r)]).
Proof. exists []. split; [reflexivity|constructor]. Qed.

Lemma setup_history_snoc env r h c x :
  setup_history env r h -> setup_call env c -> setup_history env r (h ++ [(c, x)]).
Proof.
  intros (t & -> & Ht) Hc. exists (t ++ [(c, x)]). split; [reflexivity|].
  apply Forall_app. split; [exact Ht|]. repeat constructor. exact Hc.
Qed.

Lemma setup_history_rlimits env r h t :
  setup_history env r h ->
  getenv "KRUN_RLIMITS" env <> None ->
  Forall (fun e => rlimit_call (fst e) = true) t ->
  setup_history env r (h ++ t).
Proof.
  intros (t0 & -> & Ht0) Hs Ht. exists (t0 ++ t). split; [reflexivity|].
  apply Forall_app. split; [exact Ht0|].
  eapply Forall_impl; [|exact Ht].
  intros [c x]. simpl. destruct c; simpl; intros; (discriminate || assumption).
Qed.

Lemma wp_set_rlimits kernel s (Q : outcome call unit -> Prop) h :
  (forall t, Forall (fun e => rlimit_call (fst e) = true) t ->
             (set_rlimits kernel s h = Ret tt (h ++ t) -> Q (Ret tt (h ++ t))) /\
             (set_rlimits kernel s h = Fault (h ++ t) -> Q (Fault (h ++ t)))) ->
  wp (set_rlimits kernel s) Q h.
Proof.
  intros H. unfold wp.
  destruct (loop_shape kernel (list_ascii_of_string s) 0 h) as (t & Ht & [E | E]);
    unfold set_rlimits in *; rewrite E; apply (H t Ht); exact E.
Qed.

Ltac setup_history_tac :=
  repeat first
    [ apply setup_history_mount
    | apply setup_history_snoc;
      [|simpl; repeat split; (assumption || reflexivity || lia || idtac)]
    | apply setup_history_rlimits; [|congruence|assumption] ].

(** The runs of [main] are exactly of the five kinds of [main_outcome]. *)
Lemma main_runs kernel env argv :
  main_outcome kernel env argv (kernel [] mount_call)
    (main kernel env argv []).
Proof.
  change (wp (main kernel env argv)
             (main_outcome kernel env argv (kernel [] mount_call)) []).
  unfold main. fold mount_call.
  apply wp_bind, wp_sys_exact. unfold after at 1.
  set (r0 := kernel [] mount_call).
  apply wp_bind.
  destruct (r0 <? 0) eqn:Hr0.
  { repeat run_step. apply MountFailed. now apply Z.ltb_lt. }
  apply Z.ltb_ge in Hr0.
  repeat run_step.
  all: try (apply wp_set_rlimits; intros t Ht; split; intros E).
  all: repeat run_step.
  all: try match goal with
           | H : (0 <=? _) = true |- _ => apply Z.leb_le in H
           end.
  all: subst.
  all: try (change (Execv (krun_init_path env) (krun_init_path env :: ?l) env)
              with (exec_call env (?a :: l))).
  all: first
         [ apply ExecReplaced; [assumption| |discriminate]
         | apply ExecReturned; [assumption| |discriminate|assumption]
         | apply NoArguments; [assumption| |reflexivity]
         | eapply RlimitsFault; [assumption| |eassumption|eassumption] ].
  all: setup_history_tac.
Qed.

(** A run that returns from [main] returns 0, right after an [execv]
    that came back. *)
Lemma main_returns_only_after_exec kernel env argv v h :
  main kernel env argv [] = Ret v h ->
  v = 0 /\ exists h' e, h = h' ++ [(exec_call env argv, e)] /\ e <> 0.
Proof.
  intros H. pose proof (main_runs kernel env argv) as R.
  rewrite H in R. inversion R; subst. split; [reflexivity|]. eauto.
Qed.

Lemma setup_call_not_execv env c : setup_call env c -> is_execv c = false.
Proof. destruct c; simpl; intros; (reflexivity || contradiction). Qed.

Lemma setup_history_no_execv env r h :
  setup_history env r h -> Forall (fun e => is_execv (fst e) = false) h.
Proof.
  intros (t & -> & Ht). constructor; [reflexivity|].
  eapply Forall_impl; [|exact Ht]. intros e. apply setup_call_not_execv.
Qed.

(** Kernels for concrete runs: one on which only [execv] fails, and one on
    which the mount and [execv] succeed and every call in between fails. *)
Definition exec_failing_kernel : trace call -> call -> Z :=
  fun _ c =>
    match c with
    | Execv _ _ _ => -1
    | _ => 0
    end.

Definition hostile_kernel : trace call -> call -> Z :=
  fun _ c =>
    match c with
    | Mount _ _ _ _ | Execv _ _ _ => 0
    | _ => -1
    end.

(* --------------------------------------------------------------------- *)
(** *** C1 *)

(** C1 fails on the code: with [KRUN_INIT=/nonexistent], the mount
    succeeding and [execv] coming back with -1, [main] returns 0; the
    return of [execv] is not looked at. *)
Theorem failed_exec_exits_zero :
  main exec_failing_kernel [("KRUN_INIT", "/nonexistent")] ["/init.krun"] [] =
  Ret 0 [(mount_call, 0);
         (Symlink "/proc/self/fd" "/dev/fd", 0);
         (Setsid, 0);
         (Ioctl 0 TIOCSCTTY 1, 0);
         (Socket AF_INET SOCK_DGRAM 0, 0);
         (IoctlIfreq 0 SIOCSIFFLAGS "lo" IFF_UP, 0);
         (Close 0, 0);
         (Execv "/nonexistent" ["/nonexistent"] [("KRUN_INIT", "/nonexistent")], -1)].
Proof. reflexivity. Qed.

(** The two halves of the life of [main]: the mount failed, or it
    succeeded. *)
Lemma main_mount_failed kernel env argv :
  kernel [] mount_call < 0 ->
  exists r', main kernel env argv [] =
             Exit (-1) [(mount_call, kernel [] mount_call);
                        (Perror "mount(/proc)", r')].
Proof.
  pose proof (main_runs kernel env argv) as R.
  intros Hm. inversion R; subst; try lia. eauto.
Qed.

Lemma main_mount_succeeded kernel env argv :
  0 <= kernel [] mount_call ->
  faulted (main kernel env argv []) = false ->
  (forall st h, main kernel env argv [] <> Exit st h) /\
  exists h e,
    Forall (fun ev => is_execv (fst ev) = false) h /\
    ((e = 0 /\ main kernel env argv [] =
               Replaced (h ++ [(exec_call env argv, e)])) \/
     (e <> 0 /\ main kernel env argv [] =
                Ret 0 (h ++ [(exec_call env argv, e)]))).
Proof.
  pose proof (main_runs kernel env argv) as R.
  intros Hm Hf.
  inversion R as [r' Hr E | s hs h Hr Hh Hs Hfault E | h Hr Hh Ha E
                 | h e Hr Hh Ha He E | h Hr Hh Ha E];
    try lia; rewrite <- E in *; try discriminate.
  - split; [discriminate|]. exists h, e. split.
    + eapply setup_history_no_execv; eassumption.
    + right. split; [assumption|reflexivity].
  - split; [discriminate|]. exists h, 0. split.
    + eapply setup_history_no_execv; eassumption.
    + left. split; reflexivity.
Qed.

(* --------------------------------------------------------------------- *)
(** *** C6 *)


(** A guest environment that sets every optional variable but the init
    path. *)
Definition full_env : environ :=
  [("HOSTNAME", "guest"); ("KRUN_RLIMITS", "6=4096:8192");
   ("KRUN_WORKDIR", "/nowhere")].

(** On the hostile kernel every setup step fails and the exec is still
    reached. *)
Example hostile_run :
  main hostile_kernel full_env ["/init.krun"] [] =
  Replaced [(mount_call, 0);
            (Symlink "/proc/self/fd" "/dev/fd", -1);
            (Sethostname "guest" 5, -1);
            (Setsid, -1);
            (Ioctl 0 TIOCSCTTY 1, -1);
            (Socket AF_INET SOCK_DGRAM 0, -1);
            (Setrlimit 6 4096 8192, -1);
            (setrlimit_error_call 6, -1);
            (Chdir "/nowhere", -1);
            (Execv "/iwasm" ["/iwasm"] full_env, 0)].
Proof. reflexivity. Qed.

(** Every event of a run of [main] is the mount, its [perror], a setup
    call or the [execv] with the resolved path. *)
Lemma main_events kernel env argv c x :
  In (c, x) (trace_of (main kernel env argv [])) ->
  c = mount_call \/ c = Perror "mount(/proc)" \/ setup_call env c \/
  c = exec_call env argv.
Proof.
  pose proof (main_runs kernel env argv) as R.
  assert (Hsetup : forall r h, setup_history env r h -> In (c, x) h ->
                               c = mount_call \/ setup_call env c).
  { intros r h (t & -> & Ht) [E | Hin].
    - inversion E. now left.
    - right. rewrite Forall_forall in Ht. exact (Ht _ Hin). }
  inversion R as [r' Hr E | s hs h Hr Hh Hs Hfault E | h Hr Hh Ha E
                 | h e Hr Hh Ha He E | h Hr Hh Ha E];
    simpl; intros Hin.
  - destruct Hin as [E' | [E' | []]]; inversion E'; auto.
  - destruct (Hsetup _ _ Hh Hin); auto.
  - destruct (Hsetup _ _ Hh Hin); auto.
  - apply in_app_or in Hin. destruct Hin as [Hin | [E' | []]].
    + destruct (Hsetup _ _ Hh Hin); auto.
    + inversion E'. auto.
  - apply in_app_or in Hin. destruct Hin as [Hin | [E' | []]].
    + destruct (Hsetup _ _ Hh Hin); auto.
    + inversion E'. auto.
Qed.

(* --------------------------------------------------------------------- *)
(** *** C8 *)

(** C8: the program to run is the value of [KRUN_INIT] when the variable
    is set and ["/iwasm"] otherwise; every [execv] call of a run of [main]
    names that path, passes the original arguments with the first one
    replaced by that path, and passes the environment the process was
    started with; and a run whose mount succeeded and that stayed inside
    its [KRUN_RLIMITS] string ends with that call. *)
Theorem exec_resolution_and_handoff kernel env a0 args :
  (forall krun_init, getenv "KRUN_INIT" env = Some krun_init ->
                     krun_init_path env = krun_init) /\
  (getenv "KRUN_INIT" env = None -> krun_init_path env = "/iwasm") /\
  (forall c x,
      In (c, x) (trace_of (main kernel env (a0 :: args) [])) ->
      is_execv c = true ->
      c = Execv (krun_init_path env) (krun_init_path env :: args) env) /\
  (0 <= kernel [] mount_call ->
   faulted (main kernel env (a0 :: args) []) = false ->
   exists h e,
     trace_of (main kernel env (a0 :: args) []) =
     h ++ [(Execv (krun_init_path env) (krun_init_path env :: args) env, e)]).
Proof.
  split; [|split; [|split]].
  - intros v Hv. unfold krun_init_path. now rewrite Hv.
  - intros Hv. unfold krun_init_path. now rewrite Hv.
  - intros c x Hin Hex.
    destruct (main_events kernel env (a0 :: args) c x Hin)
      as [-> | [-> | [Hs | ->]]]; try discriminate.
    + apply setup_call_not_execv in Hs. congruence.
    + reflexivity.
  - intros Hm Hf.
    destruct (main_mount_succeeded kernel env (a0 :: args) Hm Hf)
      as [_ (h & e & _ & [[_ E] | [_ E]])];
      rewrite E; exists h, e; reflexivity.
Qed.

(** Both resolutions of the path, and a run that ends with the exec. *)
Lemma exec_resolution_and_handoff_witness :
  getenv "KRUN_INIT" [("KRUN_INIT", "/bin/sh")] = Some "/bin/sh" /\
  krun_init_path [("KRUN_INIT", "/bin/sh")] = "/bin/sh" /\
  getenv "KRUN_INIT" full_env = None /\
  krun_init_path full_env = "/iwasm" /\
  0 <= hostile_kernel [] mount_call /\
  faulted (main hostile_kernel full_env ["/init.krun"; "-c"; "true"] []) = false /\
  exists h e,
    trace_of (main hostile_kernel full_env ["/init.krun"; "-c"; "true"] []) =
    h ++ [(Execv (krun_init_path full_env)
                 [krun_init_path full_env; "-c"; "true"] full_env, e)].
Proof.
  split; [reflexivity|]. split.
  { apply (proj1 (exec_resolution_and_handoff
                    hostile_kernel [("KRUN_INIT", "/bin/sh")] "/init.krun" [])).
    reflexivity. }
  split; [reflexivity|]. split.
  { apply (proj1 (proj2 (exec_resolution_and_handoff
                           hostile_kernel full_env "/init.krun" []))).
    reflexivity. }
  split; [discriminate|]. split; [reflexivity|].
  apply (proj2 (proj2 (proj2 (exec_resolution_and_handoff
                                hostile_kernel full_env "/init.krun"
                                ["-c"; "true"]))));
    [discriminate|reflexivity].
Defined.

(* --------------------------------------------------------------------- *)
(** *** C9 *)

Definition is_sethostname (c : call) : bool :=
  match c with
  | Sethostname _ _ => true
  | _ => false
  end.

Definition is_chdir (c : call) : bool :=
  match c with
  | Chdir _ => true
  | _ => false
  end.

(** C9: a run of [main] in an environment without [HOSTNAME] makes no
    [sethostname] call; without [KRUN_RLIMITS], no [setrlimit] call and no
    [printf]; without [KRUN_WORKDIR], no [chdir] call; and without
    [KRUN_INIT] the path is [DEFAULT_KRUN_INIT] and it is the path of every
    [execv] call.  Each of the four holds whatever the other three
    variables are. *)
Theorem absent_variables_skip_steps kernel env argv :
  (getenv "HOSTNAME" env = None ->
   forall c x, In (c, x) (trace_of (main kernel env argv [])) ->
               is_sethostname c = false) /\
  (getenv "KRUN_RLIMITS" env = None ->
   forall c x, In (c, x) (trace_of (main kernel env argv [])) ->
               rlimit_call c = false) /\
  (getenv "KRUN_WORKDIR" env = None ->
   forall c x, In (c, x) (trace_of (main kernel env argv [])) ->
               is_chdir c = false) /\
  (getenv "KRUN_INIT" env = None ->
   krun_init_path env = DEFAULT_KRUN_INIT /\
   forall c x, In (c, x) (trace_of (main kernel env argv [])) ->
               is_execv c = true ->
               c = Execv DEFAULT_KRUN_INIT (DEFAULT_KRUN_INIT :: tl argv) env).
Proof.
  assert (Hinit : getenv "KRUN_INIT" env = None ->
                  krun_init_path env = DEFAULT_KRUN_INIT).
  { intros Hv. unfold krun_init_path. now rewrite Hv. }
  repeat split.
  - intros Hv c x Hin.
    destruct (main_events kernel env argv c x Hin) as [-> | [-> | [Hs | ->]]];
      try reflexivity.
    destruct c; try reflexivity. simpl in Hs. destruct Hs. congruence.
  - intros Hv c x Hin.
    destruct (main_events kernel env argv c x Hin) as [-> | [-> | [Hs | ->]]];
      try reflexivity.
    destruct c; try reflexivity; simpl in Hs; congruence.
  - intros Hv c x Hin.
    destruct (main_events kernel env argv c x Hin) as [-> | [-> | [Hs | ->]]];
      try reflexivity.
    destruct c; try reflexivity. simpl in Hs. congruence.
  - auto.
  - intros c x Hin Hex.
    destruct (main_events kernel env argv c x Hin) as [-> | [-> | [Hs | ->]]];
      try discriminate.
    + apply setup_call_not_execv in Hs. congruence.
    + unfold exec_call. now rewrite Hinit.
Qed.

(** With an empty environment the run is the fixed part of the setup
    followed by the exec of the default path. *)
Example bare_run :
  main willing_kernel [] ["/init.krun"] [] =
  Replaced [(mount_call, 0);
            (Symlink "/proc/self/fd" "/dev/fd", 0);
            (Setsid, 0);
            (Ioctl 0 TIOCSCTTY 1, 0);
            (Socket AF_INET SOCK_DGRAM 0, 0);
            (IoctlIfreq 0 SIOCSIFFLAGS "lo" IFF_UP, 0);
            (Close 0, 0);
            (Execv "/iwasm" ["/iwasm"] [], 0)].
Proof. reflexivity. Qed.

(** Environments in which some of the variables are absent. *)
Lemma absent_variables_skip_steps_witness :
  getenv "HOSTNAME" [("KRUN_WORKDIR", "/work")] = None /\
  getenv "KRUN_RLIMITS" [("KRUN_WORKDIR", "/work")] = None /\
  getenv "KRUN_WORKDIR" [("HOSTNAME", "guest")] = None /\
  getenv "KRUN_INIT" [("HOSTNAME", "guest")] = None /\
  (forall c x,
      In (c, x) (trace_of (main willing_kernel [("KRUN_WORKDIR", "/work")]
                             ["/init.krun"] [])) ->
      is_sethostname c = false) /\
  (forall c x,
      In (c, x) (trace_of (main willing_kernel [("KRUN_WORKDIR", "/work")]
                             ["/init.krun"] [])) ->
      rlimit_call c = false) /\
  (forall c x,
      In (c, x) (trace_of (main willing_kernel [("HOSTNAME", "guest")]
                             ["/init.krun"] [])) ->
      is_chdir c = false) /\
  krun_init_path [("HOSTNAME", "guest")] = DEFAULT_KRUN_INIT.
Proof.
  repeat (split; [reflexivity|]).
  split; [|split; [|split]].
  - apply (proj1 (absent_variables_skip_steps
                    willing_kernel [("KRUN_WORKDIR", "/work")] ["/init.krun"])).
    reflexivity.
  - apply (proj1 (proj2 (absent_variables_skip_steps
                    willing_kernel [("KRUN_WORKDIR", "/work")] ["/init.krun"]))).
    reflexivity.
  - apply (proj1 (proj2 (proj2 (absent_variables_skip_steps
                    willing_kernel [("HOSTNAME", "guest")] ["/init.krun"])))).
    reflexivity.
  - apply (proj2 (proj2 (proj2 (absent_variables_skip_steps
                    willing_kernel [("HOSTNAME", "guest")] ["/init.krun"])))).
    reflexivity.
Defined.

(* ===================================================================== *)
(** ** Facts about the launcher's [main] *)
(* ===================================================================== *)

Module Launcher.

Import ChrootVm.

(** The answer with which a configuration step succeeds. *)
Definition call_ok (c : call) (r : Z) : Prop :=
  match c with
  | KrunCreateCtx => 0 <= r
  | Getcwd _ | Malloc _ => r <> 0
  | Printf _ _ | Perror _ _ | KrunStartEnter _ => False
  | _ => r = 0
  end.

(** The steps whose failure [main] answers with [return -1]. *)
Definition checked_step (c : call) : Prop :=
  match c with
  | Printf _ _ | Perror _ _ | Malloc _ => False
  | _ => True
  end.

Definition all_ok (h : trace call) : Prop :=
  Forall (fun e => call_ok (fst e) (snd e)) h.

Definition volume_error : string := "Error allocating memory for volume string".

(** Every way a run of the launcher can end. *)
Inductive launch_outcome : outcome call Z -> Prop :=
| Usage x y a :
    launch_outcome
      (Ret (-1) [(Printf (String.append "Invalid arguments" LF) [], x);
                 (Printf (String.append "Usage: %s NEWROOT COMMAND [ARG...]" LF)
                         [a], y)])
| NoProgramName x :
    launch_outcome
      (Fault [(Printf (String.append "Invalid arguments" LF) [], x)])
| StepFailed h c r msg errno x :
    all_ok h -> checked_step c -> ~ call_ok c r ->
    launch_outcome (Ret (-1) (h ++ [(c, r); (Perror msg errno, x)]))
| VolumeNotAllocated h size errno x :
    all_ok h ->
    launch_outcome
      (Fault (h ++ [(Malloc size, 0); (Perror volume_error errno, x)]))
| Entered h ctx :
    all_ok h ->
    launch_outcome (Replaced (h ++ [(KrunStartEnter ctx, 0)])).

Lemma all_ok_snoc h c r : all_ok h -> call_ok c r -> all_ok (h ++ [(c, r)]).
Proof.
  intros Hh Hc. apply Forall_app. split; [exact Hh|]. repeat constructor.
  exact Hc.
Qed.

Lemma step_failed_shape (h : trace call) (c : call) (r : Z) msg errno (x : Z) :
  (h ++ [(c, r)]) ++ [(Perror msg errno, x)] =
  h ++ [(c, r); (Perror msg errno, x)].
Proof. now rewrite <- app_assoc. Qed.

Ltac decide_tests :=
  repeat match goal with
    | H : negb _ = true |- _ => apply negb_true_iff in H
    | H : negb _ = false |- _ => apply negb_false_iff in H
    | H : (_ =? _) = true |- _ => apply Z.eqb_eq in H
    | H : (_ =? _) = false |- _ => apply Z.eqb_neq in H
    | H : (_ <? _) = true |- _ => apply Z.ltb_lt in H
    | H : (_ <? _) = false |- _ => apply Z.ltb_ge in H
    end.

Ltac all_ok_tac :=
  repeat first
    [ exact (Forall_nil _)
    | apply all_ok_snoc; [|simpl; (assumption || lia)] ].

Ltac launch_step :=
  lazymatch goal with
  | |- wp (if true then _ else _) _ _ => cbv iota
  | |- wp (if false then _ else _) _ _ => cbv iota
  | |- _ => run_step
  end.

(** The runs of the launcher are exactly of the five kinds of
    [launch_outcome]. *)
Lemma launcher_runs host current_dir argv :
  launch_outcome (main host current_dir argv []).
Proof.
  change (wp (main host current_dir argv) launch_outcome []).
  unfold main.
  repeat launch_step.
  all: decide_tests.
  all: try (exfalso; lia).
  all: subst.
  all: first
         [ apply Usage
         | apply NoProgramName
         | apply Entered; all_ok_tac
         | rewrite step_failed_shape; apply VolumeNotAllocated; all_ok_tac
         | rewrite step_failed_shape;
           apply StepFailed; [all_ok_tac|exact I|simpl; lia] ].
Qed.

(** Whenever the launcher returns, it returns -1. *)
Lemma launcher_returns_minus_one host current_dir argv v h :
  main host current_dir argv [] = Ret v h -> v = -1.
Proof.
  intros H. pose proof (launcher_runs host current_dir argv) as R.
  rewrite H in R. inversion R; reflexivity.
Qed.

(** A host on which every call succeeds, and one on which only the
    allocation of the volume string fails. *)
Definition willing_host : trace call -> call -> Z :=
  fun _ c =>
    match c with
    | Getcwd _ | Malloc _ => 1
    | _ => 0
    end.

Definition out_of_memory_host : trace call -> call -> Z :=
  fun _ c =>
    match c with
    | Getcwd _ => 1
    | _ => 0
    end.

Example launch_enters :
  main willing_host "/home/user" ["chroot_vm"; "/tmp/rootfs"; "/bin/true"] [] =
  Replaced [(KrunSetLogLevel 0, 0);
            (KrunCreateCtx, 0);
            (KrunSetVmConfig 0 1 4096, 0);
            (KrunSetRoot 0 "/tmp/rootfs", 0);
            (Getcwd MAX_PATH, 1);
            (Malloc 17, 1);
            (KrunSetMappedVolumes 0 ["/home/user:/work"], 0);
            (KrunSetPortMap 0 ["18000:8000"], 0);
            (KrunSetRlimits 0 ["6=4096:8192"], 0);
            (KrunSetWorkdir 0 "/", 0);
            (KrunSetExec 0 "/bin/true" [] ["TEST=works"], 0);
            (KrunStartEnter 0, 0)].
Proof. reflexivity. Qed.

End Launcher.

(* --------------------------------------------------------------------- *)
(** *** C7 *)

(** C7 fails on the code: when [malloc] returns a null pointer for the
    volume string, the launcher reports it with [perror] and, having no
    [return -1] in that branch, goes on to [snprintf] through the null
    pointer instead of returning -1. *)
Theorem failed_malloc_not_fatal :
  ChrootVm.main Launcher.out_of_memory_host "/home/user"
    ["chroot_vm"; "/tmp/rootfs"; "/bin/true"] [] =
  Fault [(ChrootVm.KrunSetLogLevel 0, 0);
         (ChrootVm.KrunCreateCtx, 0);
         (ChrootVm.KrunSetVmConfig 0 1 4096, 0);
         (ChrootVm.KrunSetRoot 0 "/tmp/rootfs", 0);
         (ChrootVm.Getcwd ChrootVm.MAX_PATH, 1);
         (ChrootVm.Malloc 17, 0);
         (ChrootVm.Perror Launcher.volume_error 0, 0)].
Proof. reflexivity. Qed.

(* ===================================================================== *)
(** ** More about [set_rlimits]: what it touches, when it leaves the
       string, and what it reads from well-formed text *)
(* ===================================================================== *)

(** What one turn of the loop reads and decides without the kernel: the
    three fields of the directive at [item] and where the next directive
    would start.  [TurnFault]: a field starts outside the string;
    [TurnInvalid]: the id read as [ULLONG_MAX]; [TurnParsed]: the three
    values, and the next offset when the directive is followed by text. *)
Inductive turn : Type :=
| TurnFault
| TurnInvalid
| TurnParsed (lim_id lim_cur lim_max : Z) (next : option nat).

Definition read_turn (buf : list ascii) (item : nat) : turn :=
  match strtoull buf item with
  | None => TurnFault
  | Some (lim_id, i1) =>
      if lim_id =? ULLONG_MAX then TurnInvalid
      else
        match strtoull buf (S i1) with
        | None => TurnFault
        | Some (lim_cur, i2) =>
            match strtoull buf (S i2) with
            | None => TurnFault
            | Some (lim_max, i3) =>
                TurnParsed lim_id lim_cur lim_max
                  (if negb (is_nul (nth i3 buf NUL)) then Some (S i3) else None)
            end
        end
  end.

(** The turn of the loop, in terms of what it read. *)
Lemma body_by_turn kernel buf item h :
  set_rlimits_body kernel buf item h =
  match read_turn buf item with
  | TurnFault => Fault h
  | TurnInvalid => Ret None (h ++ [(invalid_id_call, kernel h invalid_id_call)])
  | TurnParsed lim_id lim_cur lim_max next =>
      Ret next (h ++ apply_events kernel h lim_id lim_cur lim_max)
  end.
Proof.
  unfold read_turn.
  destruct (strtoull buf item) as [[lim_id i1]|] eqn:H1.
  2:{ unfold set_rlimits_body, bind, strtoull_at, fault. now rewrite H1. }
  destruct (Z.eq_dec lim_id ULLONG_MAX) as [->|Hid].
  { rewrite Z.eqb_refl. eapply body_invalid_id; eassumption. }
  pose proof Hid as Hid'. apply Z.eqb_neq in Hid'. rewrite Hid'.
  destruct (strtoull buf (S i1)) as [[lim_cur i2]|] eqn:H2.
  2:{ unfold set_rlimits_body, bind, strtoull_at, fault, ret.
      now rewrite H1, Hid', H2. }
  destruct (strtoull buf (S i2)) as [[lim_max i3]|] eqn:H3.
  2:{ unfold set_rlimits_body, bind, strtoull_at, fault, ret.
      now rewrite H1, Hid', H2, H3. }
  apply body_parsed with (i1 := i1) (i2 := i2); assumption.
Qed.

(** A parsed directive takes at least three characters of the string, and
    the next one starts after them. *)
Lemma read_turn_parsed_bounds buf item lim_id lim_cur lim_max next :
  read_turn buf item = TurnParsed lim_id lim_cur lim_max next ->
  (item + 2 <= List.length buf)%nat /\
  (forall item', next = Some item' ->
                 (item + 3 <= item' <= List.length buf)%nat).
Proof.
  unfold read_turn.
  destruct (strtoull buf item) as [[v1 i1]|] eqn:H1; [|discriminate].
  destruct (v1 =? ULLONG_MAX); [discriminate|].
  destruct (strtoull buf (S i1)) as [[v2 i2]|] eqn:H2; [|discriminate].
  destruct (strtoull buf (S i2)) as [[v3 i3]|] eqn:H3; [|discriminate].
  apply strtoull_bounds in H1, H2, H3.
  intros H. injection H as _ _ _ Hn. split; [lia|].
  intros item' E. rewrite E in Hn.
  destruct (is_nul (nth i3 buf NUL)) eqn:Hc; simpl in Hn; [discriminate|].
  injection Hn as Hn.
  assert (i3 < List.length buf)%nat; [|lia].
  apply (@load_not_nul buf i3 (nth i3 buf NUL)); [|exact Hc].
  apply load_in_bounds. lia.
Qed.

Lemma applied_apply_events kernel h lim_id lim_cur lim_max :
  applied (apply_events kernel h lim_id lim_cur lim_max) =
  [(to_int lim_id, lim_cur, lim_max)].
Proof. unfold apply_events. destruct (negb _); reflexivity. Qed.

Lemma rlimit_calls_apply_events kernel h lim_id lim_cur lim_max :
  Forall (fun e => rlimit_call (fst e) = true)
         (apply_events kernel h lim_id lim_cur lim_max).
Proof. unfold apply_events. destruct (negb _); repeat constructor. Qed.

Lemma list_ascii_of_string_length s :
  List.length (list_ascii_of_string s) = String.length s.
Proof. induction s as [|c s' IH]; simpl; [reflexivity|now rewrite IH]. Qed.

Lemma loop_footprint kernel buf item h :
  exists t,
    (set_rlimits_loop kernel buf item h = Ret tt (h ++ t) \/
     set_rlimits_loop kernel buf item h = Fault (h ++ t)) /\
    Forall (fun e => rlimit_call (fst e) = true) t /\
    (3 * List.length (applied t) <= List.length buf + 1 - item)%nat.
Proof.
  funelim (set_rlimits_loop kernel buf item h);
    match goal with
    | H : set_rlimits_body _ _ ?i ?g = _ |- _ =>
        let E := fresh "E" in
        pose proof H as E; rewrite body_by_turn in E;
        destruct (read_turn buf i) as [| |v1 v2 v3 nx] eqn:Ht;
        inversion E; subst
    end.
  - match goal with
    | IH : exists _, _ |- _ => destruct IH as (t' & Hr & Hc & Hb)
    end.
    destruct (read_turn_parsed_bounds _ _ Ht) as [_ Hn].
    specialize (Hn _ eq_refl).
    exists (apply_events kernel h v1 v2 v3 ++ t'). split; [|split].
    + rewrite app_assoc. exact Hr.
    + apply Forall_app. split; [apply rlimit_calls_apply_events|exact Hc].
    + rewrite applied_app, applied_apply_events, length_app. simpl. lia.
  - exists [(invalid_id_call, kernel h invalid_id_call)].
    split; [now left|]. split; [repeat constructor|simpl; lia].
  - destruct (read_turn_parsed_bounds _ _ Ht) as [Hb _].
    exists (apply_events kernel h v1 v2 v3). split; [now left|]. split.
    + apply rlimit_calls_apply_events.
    + rewrite applied_apply_events. simpl. lia.
  - exists []. rewrite app_nil_r. split; [now right|].
    split; [constructor|simpl; lia].
Qed.

(** X1: [set_rlimits] returns or leaves the string, and nothing else: it
    never calls [exit] and never hands the process over; it keeps the
    history it was given and adds only [setrlimit] and [printf] calls to
    it; and it makes at most one [setrlimit] call for every three
    characters of its argument. *)
Theorem set_rlimits_footprint kernel s h :
  exists t,
    (set_rlimits kernel s h = Ret tt (h ++ t) \/
     set_rlimits kernel s h = Fault (h ++ t)) /\
    Forall (fun e => rlimit_call (fst e) = true) t /\
    (3 * List.length (applied t) <= String.length s + 1)%nat.
Proof.
  unfold set_rlimits.
  destruct (loop_footprint kernel (list_ascii_of_string s) 0 h)
    as (t & Hr & Hc & Hb).
  rewrite list_ascii_of_string_length in Hb.
  exists t. split; [exact Hr|]. split; [exact Hc|lia].
Qed.

(** A directive that ends early: its text stops with the id, or with the
    soft limit, so that a later field would start outside the string. *)
Definition ends_early (buf : list ascii) (item : nat) : Prop :=
  exists lim_id i1,
    strtoull buf item = Some (lim_id, i1) /\ lim_id <> ULLONG_MAX /\
    (i1 = List.length buf \/
     exists lim_cur, strtoull buf (S i1) = Some (lim_cur, List.length buf)).

Lemma read_turn_fault buf item :
  (item <= List.length buf)%nat ->
  (read_turn buf item = TurnFault <-> ends_early buf item).
Proof.
  intros Hle. unfold read_turn, ends_early.
  destruct (@strtoull_in_bounds buf item Hle) as (v1 & i1 & H1). rewrite H1.
  pose proof (strtoull_bounds _ _ H1) as B1.
  destruct (Z.eq_dec v1 ULLONG_MAX) as [->|Hid].
  { rewrite Z.eqb_refl. split; [discriminate|].
    intros (v & i & E & Hne & _). inversion E; subst. contradiction. }
  pose proof Hid as Hid'. apply Z.eqb_neq in Hid'. rewrite Hid'.
  destruct (strtoull buf (S i1)) as [[v2 i2]|] eqn:H2.
  - pose proof (strtoull_bounds _ _ H2) as B2.
    destruct (strtoull buf (S i2)) as [[v3 i3]|] eqn:H3.
    + pose proof (strtoull_bounds _ _ H3) as B3. split; [discriminate|].
      intros (v & i & E & _ & [Hi | (c & Hc)]);
        injection E as <- <-; exfalso.
      * clear - B2 Hi. lia.
      * rewrite H2 in Hc. injection Hc as _ Hc. clear - B3 Hc. lia.
    + split; [|reflexivity]. intros _. exists v1, i1.
      split; [reflexivity|]. split; [assumption|]. right. exists v2.
      rewrite H2. f_equal. f_equal.
      destruct (Nat.le_gt_cases (S i2) (List.length buf)) as [Hin | Hout];
        [|clear - B2 Hout; lia].
      destruct (@strtoull_in_bounds buf (S i2) Hin) as (v & q & Hq).
      congruence.
  - split; [|reflexivity]. intros _. exists v1, i1.
    split; [reflexivity|]. split; [assumption|]. left.
    destruct (Nat.le_gt_cases (S i1) (List.length buf)) as [Hin | Hout];
      [|clear - B1 Hout; lia].
    destruct (@strtoull_in_bounds buf (S i1) Hin) as (v & q & Hq).
    congruence.
Qed.

Lemma loop_fault_inv kernel buf item h0 h :
  set_rlimits_loop kernel buf item h0 = Fault h ->
  exists k item',
    directive_start kernel buf k item h0 = Some (item', h) /\
    read_turn buf item' = TurnFault.
Proof.
  funelim (set_rlimits_loop kernel buf item h0); intros Hf; try discriminate.
  - match goal with
    | IH : forall _, _ -> exists _, _, B : set_rlimits_body _ _ _ _ = _ |- _ =>
        destruct (IH _ Hf) as (k & it & Hk & Ht);
        exists (S k), it; simpl; rewrite B; auto
    end.
  - injection Hf as <-.
    match goal with
    | B : set_rlimits_body _ _ ?i ?g = _ |- _ =>
        let E := fresh "E" in
        pose proof B as E; rewrite body_by_turn in E;
        destruct (read_turn buf i) eqn:Ht; try discriminate;
        injection E as <-;
        exists 0%nat, i; split; [reflexivity|exact Ht]
    end.
Qed.

(** Strings with a directive that ends early: the read outside the string
    comes before any call is made for that directive. *)
Example cut_short_strings :
  (forall kernel h, set_rlimits kernel "" h = Fault h) /\
  (forall kernel h, set_rlimits kernel "6" h = Fault h) /\
  (forall kernel h, set_rlimits kernel "6=4096" h = Fault h) /\
  set_rlimits willing_kernel "6=4096:8192;" [] =
    Fault [(Setrlimit 6 4096 8192, 0)].
Proof. repeat split; reflexivity. Qed.

(** X2: the first read of [set_rlimits] outside its string happens exactly
    when a directive it reaches ends early, the string ending right after
    the id or right after the soft limit of that directive: the run is the
    [Fault] with history [h] exactly when such a directive starts with the
    history [h].  Up to that read the calls made are those of the earlier
    directives, and none has been made for the directive cut short; what
    the program does after the read is undefined and is not described.
    The empty string, ["6"], ["6=4096"] and ["6=4096:8192;"] are such
    strings. *)
Theorem set_rlimits_faults_iff_cut_short kernel s h0 h :
  set_rlimits kernel s h0 = Fault h <->
  exists k item,
    directive_start kernel (list_ascii_of_string s) k 0 h0 = Some (item, h) /\
    ends_early (list_ascii_of_string s) item.
Proof.
  unfold set_rlimits. set (buf := list_ascii_of_string s). split.
  - intros Hf. destruct (loop_fault_inv _ _ _ _ Hf) as (k & item & Hk & Ht).
    exists k, item. split; [exact Hk|].
    apply read_turn_fault; [|exact Ht].
    eapply directive_start_in_bounds; eassumption.
  - intros (k & item & Hk & He).
    rewrite (loop_from_directive _ _ _ _ _ Hk), set_rlimits_loop_unfold.
    rewrite body_by_turn.
    apply read_turn_fault in He;
      [|eapply directive_start_in_bounds; eassumption].
    now rewrite He.
Qed.

(** A string that ends with a terminator: the directive after the [;]
    starts at the end of the string. *)
Lemma set_rlimits_faults_iff_cut_short_witness :
  (exists k item,
      directive_start willing_kernel (list_ascii_of_string "6=4096:8192;") k 0 [] =
        Some (item, [(Setrlimit 6 4096 8192, 0)]) /\
      ends_early (list_ascii_of_string "6=4096:8192;") item) /\
  set_rlimits willing_kernel "6=4096:8192;" [] = Fault [(Setrlimit 6 4096 8192, 0)].
Proof.
  assert (H : exists k item,
             directive_start willing_kernel
               (list_ascii_of_string "6=4096:8192;") k 0 [] =
               Some (item, [(Setrlimit 6 4096 8192, 0)]) /\
             ends_early (list_ascii_of_string "6=4096:8192;") item).
  { exists 1%nat, 12%nat. split; [reflexivity|].
    exists 0, 12%nat. split; [reflexivity|]. split; [discriminate|].
    left. reflexivity. }
  split; [exact H|].
  apply (proj2 (set_rlimits_faults_iff_cut_short willing_kernel "6=4096:8192;"
                  [] [(Setrlimit 6 4096 8192, 0)])).
  exact H.
Defined.

Lemma loop_ignores_kernel k1 k2 buf item h1 : forall h2,
  exists t1 t2,
    trace_of (set_rlimits_loop k1 buf item h1) = h1 ++ t1 /\
    trace_of (set_rlimits_loop k2 buf item h2) = h2 ++ t2 /\
    applied t1 = applied t2 /\
    faulted (set_rlimits_loop k1 buf item h1) =
    faulted (set_rlimits_loop k2 buf item h2).
Proof.
  funelim (set_rlimits_loop k1 buf item h1); intros h2;
    match goal with
    | H : set_rlimits_body _ _ ?i ?g = _ |- _ =>
        let E := fresh "E" in
        pose proof H as E; rewrite body_by_turn in E;
        rewrite (set_rlimits_loop_unfold k2), (body_by_turn k2);
        destruct (read_turn buf i) as [| |v1 v2 v3 nx] eqn:Ht;
        inversion E; subst
    end.
  - match goal with
    | IH : forall _ _, exists _, _ |- _ =>
        destruct (IH k2 (h2 ++ apply_events k2 h2 v1 v2 v3))
          as (t1 & t2 & E1 & E2 & Ea & Ef)
    end.
    exists (apply_events k1 h v1 v2 v3 ++ t1), (apply_events k2 h2 v1 v2 v3 ++ t2).
    rewrite !app_assoc, !applied_app, !applied_apply_events, Ea.
    repeat split; assumption.
  - do 2 eexists. simpl. repeat split; reflexivity.
  - do 2 eexists. simpl. repeat split; try reflexivity.
    now rewrite !applied_apply_events.
  - exists [], []. simpl. rewrite !app_nil_r. repeat split; reflexivity.
Qed.

(** X3: what [set_rlimits] applies depends on the string only.  Whatever
    two kernels answer and whatever happened before, the two runs make
    the same [setrlimit] calls in the same order, and one leaves the
    string exactly when the other does. *)
Theorem set_rlimits_ignores_kernel k1 k2 s h1 h2 :
  exists t1 t2,
    trace_of (set_rlimits k1 s h1) = h1 ++ t1 /\
    trace_of (set_rlimits k2 s h2) = h2 ++ t2 /\
    applied t1 = applied t2 /\
    faulted (set_rlimits k1 s h1) = faulted (set_rlimits k2 s h2).
Proof. apply loop_ignores_kernel. Qed.

(** *** Well-formed text *)

(** The text of one directive: three runs of decimal digits and the two
    characters between them. *)
Record directive_text : Type := {
  id_digits : list ascii;
  sep1 : ascii;
  soft_digits : list ascii;
  sep2 : ascii;
  hard_digits : list ascii
}.

Definition directive_chars (d : directive_text) : list ascii :=
  id_digits d ++ sep1 d :: soft_digits d ++ sep2 d :: hard_digits d.

(** The text of a directive followed by more directives, each after a
    one-character terminator. *)
Fixpoint directives_chars (d : directive_text)
    (more : list (ascii * directive_text)) : list ascii :=
  match more with
  | [] => directive_chars d
  | (t, d') :: more' => directive_chars d ++ t :: directives_chars d' more'
  end.

(** What [strtoull] makes of a run of digits. *)
Definition field_value (ds : list ascii) : Z :=
  strtoull_value false (decimal ds).

Definition digits_ok (ds : list ascii) : bool :=
  (negb (Nat.eqb (List.length ds) 0) && forallb isdigit ds)%bool.

(** The three fields are non-empty runs of digits, the characters between
    them are anything but digits, and the id does not read as
    [ULLONG_MAX]. *)
Definition directive_ok (d : directive_text) : bool :=
  (digits_ok (id_digits d) && digits_ok (soft_digits d) &&
   digits_ok (hard_digits d) &&
   negb (isdigit (sep1 d)) && negb (isdigit (sep2 d)) &&
   negb (field_value (id_digits d) =? ULLONG_MAX))%bool.

(** A terminator is any character but a digit and the NUL. *)
Definition terminator_ok (t : ascii) : bool :=
  (negb (isdigit t) && negb (is_nul t))%bool.

Definition directive_value (d : directive_text) : Z * Z * Z :=
  (to_int (field_value (id_digits d)),
   field_value (soft_digits d),
   field_value (hard_digits d)).

Lemma isdigit_not_space c : isdigit c = true -> isspace c = false.
Proof.
  unfold isdigit, isspace. intros H.
  apply andb_true_iff in H. destruct H as [Ha Hb].
  apply Nat.leb_le in Ha, Hb.
  apply orb_false_iff. split.
  - apply Nat.eqb_neq. lia.
  - apply andb_false_iff. right. apply Nat.leb_gt. lia.
Qed.

Lemma isdigit_not_sign c :
  isdigit c = true -> (Ascii.eqb c "-" || Ascii.eqb c "+")%bool = false.
Proof.
  intros H. apply orb_false_iff.
  split; apply Ascii.eqb_neq; intros ->; discriminate.
Qed.

Lemma take_while_digits ds rest :
  forallb isdigit ds = true ->
  match rest with [] => true | c :: _ => negb (isdigit c) end = true ->
  take_while isdigit (ds ++ rest) = ds.
Proof.
  intros Hd Hr. induction ds as [|c t IH]; simpl in *.
  - destruct rest as [|c r]; [reflexivity|]. simpl.
    apply negb_true_iff in Hr. now rewrite Hr.
  - apply andb_true_iff in Hd. destruct Hd as [Hc Ht].
    rewrite Hc, (IH Ht). reflexivity.
Qed.

(** [strtoull] on a run of digits that starts at [pos] and is followed by
    the end of the string or by a character that is not a digit. *)
Lemma strtoull_digits pre ds rest :
  digits_ok ds = true ->
  match rest with [] => true | c :: _ => negb (isdigit c) end = true ->
  strtoull (pre ++ ds ++ rest) (List.length pre) =
  Some (field_value ds, (List.length pre + List.length ds)%nat).
Proof.
  intros Hok Hr. unfold digits_ok in Hok.
  apply andb_true_iff in Hok. destruct Hok as [Hne Hd].
  destruct ds as [|c t]; [discriminate|]. clear Hne.
  pose proof Hd as Hd'. simpl in Hd'.
  apply andb_true_iff in Hd'. destruct Hd' as [Hc _].
  unfold strtoull.
  assert (Hle : Nat.leb (List.length pre)
                  (List.length (pre ++ (c :: t) ++ rest)) = true).
  { apply Nat.leb_le. rewrite length_app. lia. }
  rewrite Hle.
  assert (Hs : skipn (List.length pre) (pre ++ (c :: t) ++ rest) =
               (c :: t) ++ rest).
  { rewrite skipn_app, skipn_all, Nat.sub_diag. reflexivity. }
  rewrite Hs. set (X := (c :: t) ++ rest).
  assert (A1 : take_while isspace X = []).
  { unfold X. simpl. now rewrite (isdigit_not_space _ Hc). }
  rewrite A1. cbn [List.length skipn].
  assert (A2 : match X with
               | [] => 0%nat
               | c0 :: _ =>
                   if (Ascii.eqb c0 "-" || Ascii.eqb c0 "+")%bool
                   then 1%nat else 0%nat
               end = 0%nat).
  { unfold X. simpl. now rewrite (isdigit_not_sign _ Hc). }
  rewrite A2. cbn [skipn].
  assert (A3 : match X with
               | [] => false
               | c0 :: _ => Ascii.eqb c0 "-"
               end = false).
  { unfold X. simpl. pose proof (isdigit_not_sign _ Hc) as Hs'.
    apply orb_false_iff in Hs'. tauto. }
  rewrite A3.
  unfold X. rewrite (take_while_digits _ _ Hd Hr).
  unfold field_value. f_equal. f_equal. cbn [List.length]. clear. lia.
Qed.

Definition not_digit_first (l : list ascii) : bool :=
  match l with
  | [] => true
  | c :: _ => negb (isdigit c)
  end.

(** What a turn of the loop reads at the start of a well-formed
    directive. *)
Lemma read_turn_directive pre d tail :
  directive_ok d = true ->
  not_digit_first tail = true ->
  read_turn (pre ++ directive_chars d ++ tail) (List.length pre) =
  TurnParsed (field_value (id_digits d)) (field_value (soft_digits d))
             (field_value (hard_digits d))
             (if negb (is_nul (hd NUL tail))
              then Some (S (List.length (pre ++ directive_chars d)))
              else None).
Proof.
  intros Hok Htail. unfold directive_ok in Hok.
  do 5 (apply andb_true_iff in Hok; destruct Hok as [Hok ?]).
  destruct d as [ids s1 softs s2 hards]. simpl in *.
  unfold directive_chars. simpl.
  set (buf := pre ++ (ids ++ s1 :: softs ++ s2 :: hards) ++ tail).
  assert (E1 : buf = pre ++ ids ++ (s1 :: softs ++ s2 :: hards ++ tail)).
  { unfold buf. repeat first [rewrite <- app_assoc | progress simpl].
    reflexivity. }
  assert (E2 : buf = (pre ++ ids ++ [s1]) ++ softs ++ (s2 :: hards ++ tail)).
  { rewrite E1. repeat first [rewrite <- app_assoc | progress simpl].
    reflexivity. }
  assert (E3 : buf = (pre ++ ids ++ [s1] ++ softs ++ [s2]) ++ hards ++ tail).
  { rewrite E1. repeat first [rewrite <- app_assoc | progress simpl].
    reflexivity. }
  assert (E4 : buf = (pre ++ ids ++ s1 :: softs ++ s2 :: hards) ++ tail).
  { unfold buf. repeat first [rewrite <- app_assoc | progress simpl].
    reflexivity. }
  assert (P1 : strtoull buf (List.length pre) =
               Some (field_value ids, (List.length pre + List.length ids)%nat)).
  { rewrite E1. apply strtoull_digits; assumption. }
  assert (L2 : S (List.length pre + List.length ids) =
               List.length (pre ++ ids ++ [s1])).
  { rewrite !length_app. simpl. lia. }
  assert (P2 : strtoull buf (S (List.length pre + List.length ids)) =
               Some (field_value softs,
                     (List.length (pre ++ ids ++ [s1]) + List.length softs)%nat)).
  { rewrite L2, E2. apply strtoull_digits; assumption. }
  assert (L3 : S (List.length (pre ++ ids ++ [s1]) + List.length softs) =
               List.length (pre ++ ids ++ [s1] ++ softs ++ [s2])).
  { repeat first [rewrite length_app | progress simpl]. lia. }
  assert (P3 : strtoull buf
                 (S (List.length (pre ++ ids ++ [s1]) + List.length softs)) =
               Some (field_value hards,
                     (List.length (pre ++ ids ++ [s1] ++ softs ++ [s2]) +
                      List.length hards)%nat)).
  { rewrite L3, E3. apply strtoull_digits; assumption. }
  assert (L4 : (List.length (pre ++ ids ++ [s1] ++ softs ++ [s2]) +
                List.length hards)%nat =
               List.length (pre ++ ids ++ s1 :: softs ++ s2 :: hards)).
  { repeat first [rewrite length_app | progress simpl]. lia. }
  unfold read_turn. rewrite P1.
  match goal with
  | H : negb (field_value ids =? ULLONG_MAX) = true |- _ =>
      apply negb_true_iff in H; rewrite H
  end.
  rewrite P2, P3, L4.
  f_equal.
  rewrite E4 at 1. rewrite app_nth2 by lia. rewrite Nat.sub_diag.
  destruct tail; reflexivity.
Qed.

Lemma directives_ok_tail (more : list (ascii * directive_text)) :
  forallb (fun td => (terminator_ok (fst td) && directive_ok (snd td))%bool)
          more = true ->
  not_digit_first
    match more with
    | [] => []
    | (t, d') :: more' => t :: directives_chars d' more'
    end = true.
Proof.
  destruct more as [|[t d'] more']; simpl; [reflexivity|].
  intros H. apply andb_true_iff in H. destruct H as [H _].
  apply andb_true_iff in H. destruct H as [H _]. unfold terminator_ok in H.
  apply andb_true_iff in H. tauto.
Qed.

Lemma directives_chars_split d more :
  directives_chars d more =
  directive_chars d ++
  match more with
  | [] => []
  | (t, d') :: more' => t :: directives_chars d' more'
  end.
Proof.
  destruct more as [|[t d'] more']; simpl; [now rewrite app_nil_r|reflexivity].
Qed.

Lemma loop_on_directives kernel more : forall d pre h,
  directive_ok d = true ->
  forallb (fun td => (terminator_ok (fst td) && directive_ok (snd td))%bool)
          more = true ->
  exists t,
    set_rlimits_loop kernel (pre ++ directives_chars d more) (List.length pre) h =
      Ret tt (h ++ t) /\
    applied t = directive_value d :: map (fun td => directive_value (snd td)) more.
Proof.
  induction more as [|[t d'] more' IH]; intros d pre h Hd Hmore.
  - rewrite set_rlimits_loop_unfold, body_by_turn.
    rewrite directives_chars_split.
    rewrite (@read_turn_directive pre d [] Hd eq_refl). simpl.
    eexists. split; [reflexivity|]. apply applied_apply_events.
  - pose proof (@directives_ok_tail _ Hmore) as Htail.
    simpl in Hmore. apply andb_true_iff in Hmore. destruct Hmore as [Ht Hmore].
    apply andb_true_iff in Ht. destruct Ht as [Ht Hd'].
    rewrite set_rlimits_loop_unfold, body_by_turn.
    rewrite directives_chars_split.
    rewrite (@read_turn_directive pre d _ Hd Htail).
    unfold terminator_ok in Ht. apply andb_true_iff in Ht.
    destruct Ht as [_ Hnul]. cbn [hd]. rewrite Hnul.
    replace (pre ++ directive_chars d ++ t :: directives_chars d' more')
      with ((pre ++ directive_chars d ++ [t]) ++ directives_chars d' more')
      by (rewrite <- !app_assoc; reflexivity).
    replace (S (List.length (pre ++ directive_chars d)))
      with (List.length (pre ++ directive_chars d ++ [t]))
      by (rewrite !length_app; simpl; lia).
    destruct (IH d' (pre ++ directive_chars d ++ [t])
                (h ++ apply_events kernel h (field_value (id_digits d))
                        (field_value (soft_digits d))
                        (field_value (hard_digits d)))
                Hd' Hmore) as (t' & Hrun & Happ).
    rewrite Hrun. eexists. split; [rewrite <- app_assoc; reflexivity|].
    rewrite applied_app, applied_apply_events, Happ. reflexivity.
Qed.

(** X4: on well-formed text [set_rlimits] returns, having applied exactly
    the directives written, in order.  Well-formed: every field is a
    non-empty run of decimal digits, no id reads as [ULLONG_MAX], and the
    characters between fields and between directives are any characters
    but digits (and, between directives, the NUL): the loop steps over
    them without looking at them.  Each limit is passed as [strtoull]
    read it, [ULLONG_MAX] for what does not fit. *)
Theorem set_rlimits_applies_wellformed_text kernel d more h :
  directive_ok d = true ->
  forallb (fun td => (terminator_ok (fst td) && directive_ok (snd td))%bool)
          more = true ->
  exists t,
    set_rlimits kernel (string_of_list_ascii (directives_chars d more)) h =
      Ret tt (h ++ t) /\
    applied t = directive_value d :: map (fun td => directive_value (snd td)) more.
Proof.
  intros Hd Hmore. unfold set_rlimits.
  rewrite list_ascii_of_string_of_list_ascii.
  exact (@loop_on_directives kernel more d [] h Hd Hmore).
Qed.

(** The text [6 4096,18446744073709551616|007:1-2], with odd separators,
    a limit that does not fit and leading zeros. *)
Definition odd_first : directive_text :=
  {| id_digits := list_ascii_of_string "6"; sep1 := " "%char;
     soft_digits := list_ascii_of_string "4096"; sep2 := ","%char;
     hard_digits := list_ascii_of_string "18446744073709551616" |}.

Definition odd_second : directive_text :=
  {| id_digits := list_ascii_of_string "007"; sep1 := ":"%char;
     soft_digits := list_ascii_of_string "1"; sep2 := "-"%char;
     hard_digits := list_ascii_of_string "2" |}.

Lemma set_rlimits_applies_wellformed_text_witness :
  directive_ok odd_first = true /\
  forallb (fun td => (terminator_ok (fst td) && directive_ok (snd td))%bool)
          [("|"%char, odd_second)] = true /\
  string_of_list_ascii (directives_chars odd_first [("|"%char, odd_second)]) =
    "6 4096,18446744073709551616|007:1-2" /\
  exists t,
    set_rlimits refusing_kernel
      (string_of_list_ascii (directives_chars odd_first [("|"%char, odd_second)]))
      [] = Ret tt ([] ++ t) /\
    applied t = [(6, 4096, ULLONG_MAX); (7, 1, 2)].
Proof.
  split; [reflexivity|]. split; [reflexivity|]. split; [reflexivity|].
  exact (@set_rlimits_applies_wellformed_text refusing_kernel odd_first
           [("|"%char, odd_second)] [] eq_refl eq_refl).
Defined.

(* ===================================================================== *)
(** ** More about [init]'s [main]: the order of its steps, the loopback
       socket, and the variables that are set *)
(* ===================================================================== *)

(** The place of each call in the text of [main]. *)
Definition step_rank (c : call) : nat :=
  match c with
  | Mount _ _ _ _ => 0
  | Perror _ => 1
  | Symlink _ _ => 2
  | Sethostname _ _ => 3
  | Setsid => 4
  | Ioctl _ _ _ => 5
  | Socket _ _ _ => 6
  | IoctlIfreq _ _ _ _ => 7
  | Close _ => 8
  | Setrlimit _ _ _ | Printf _ _ => 9
  | Chdir _ => 10
  | Execv _ _ _ => 11
  end.

(** [a] may come before [b] in a run: it belongs to an earlier step, or
    both belong to the resource-limit step. *)
Definition step_before (a b : call) : Prop :=
  (step_rank a < step_rank b)%nat \/
  (rlimit_call a = true /\ rlimit_call b = true).

(** The calls of [h] are in order and all belong to steps before [n]. *)
Definition ordered_upto (n : nat) (h : trace call) : Prop :=
  StronglySorted step_before (map fst h) /\
  Forall (fun e => (step_rank (fst e) < n)%nat) h.

Lemma strongly_sorted_app {A} (R : A -> A -> Prop) l1 : forall l2,
  StronglySorted R l1 -> StronglySorted R l2 ->
  (forall a b, In a l1 -> In b l2 -> R a b) ->
  StronglySorted R (l1 ++ l2).
Proof.
  induction l1 as [|a l1 IH]; intros l2 H1 H2 H12; simpl; [exact H2|].
  inversion H1 as [|a' l' Hs Hf]; subst. constructor.
  - apply IH; [assumption|assumption|]. intros; apply H12; simpl; auto.
  - apply Forall_app. split; [assumption|].
    apply Forall_forall. intros b Hb. apply H12; simpl; auto.
Qed.

Lemma ordered_upto_nil : ordered_upto 0 [].
Proof. split; constructor. Qed.

Lemma ordered_upto_snoc n h c (x : Z) :
  ordered_upto n h -> (n <= step_rank c)%nat ->
  ordered_upto (S (step_rank c)) (h ++ [(c, x)]).
Proof.
  intros [Hs Hf] Hn. split.
  - rewrite map_app. apply strongly_sorted_app; [exact Hs|repeat constructor|].
    intros a b Ha [<- | []]. left.
    apply in_map_iff in Ha. destruct Ha as (e & <- & He).
    rewrite Forall_forall in Hf. specialize (Hf _ He). simpl. lia.
  - apply Forall_app. split.
    + eapply Forall_impl; [|exact Hf]. simpl. intros; lia.
    + repeat constructor.
Qed.

Lemma ordered_upto_rlimits n h t :
  ordered_upto n h -> (n <= 9)%nat ->
  Forall (fun e => rlimit_call (fst e) = true) t ->
  ordered_upto 10 (h ++ t).
Proof.
  intros [Hs Hf] Hn Ht.
  assert (Hr : forall c, rlimit_call c = true -> step_rank c = 9%nat)
    by (intros c; destruct c; simpl; intros; (discriminate || reflexivity)).
  split.
  - rewrite map_app. apply strongly_sorted_app; [exact Hs| |].
    + induction Ht as [|e t He Ht IH]; simpl; constructor; [exact IH|].
      apply Forall_forall. intros b Hb. right. split; [exact He|].
      apply in_map_iff in Hb. destruct Hb as (e' & <- & He').
      rewrite Forall_forall in Ht. exact (Ht _ He').
    + intros a b Ha Hb. left.
      apply in_map_iff in Ha. destruct Ha as (e & <- & He).
      apply in_map_iff in Hb. destruct Hb as (e' & <- & He').
      rewrite Forall_forall in Hf, Ht.
      specialize (Hf _ He). rewrite (Hr _ (Ht _ He')). lia.
  - apply Forall_app. split.
    + eapply Forall_impl; [|exact Hf]. simpl. intros; lia.
    + eapply Forall_impl; [|exact Ht]. simpl. intros e He.
      rewrite (Hr _ He). lia.
Qed.

Ltac ordered_tac :=
  first
    [ exact ordered_upto_nil
    | eapply ordered_upto_snoc; [ordered_tac|simpl; lia]
    | eapply ordered_upto_rlimits; [ordered_tac|simpl; lia|assumption] ].

(** X5: in every run of [main] the calls are made in the order of the
    steps: mount (and its [perror]), symlink, hostname, session, terminal,
    socket, interface flags, close, resource limits, working directory,
    exec.  A step may be missing but two steps are never exchanged, and
    only the resource-limit step makes more than one call. *)
Theorem main_steps_in_order kernel env argv :
  StronglySorted step_before (map fst (trace_of (main kernel env argv []))).
Proof.
  enough (H : exists n, ordered_upto n (trace_of (main kernel env argv [])))
    by (destruct H as [n [H _]]; exact H).
  change (wp (main kernel env argv)
             (fun o => exists n, ordered_upto n (trace_of o)) []).
  unfold main.
  repeat run_step.
  all: try (apply wp_set_rlimits; intros t Ht; split; intros E).
  all: repeat run_step.
  all: cbv beta iota delta [trace_of]; eexists; ordered_tac.
Qed.

(** *** The loopback socket *)

Definition is_net (c : call) : bool :=
  match c with
  | Socket _ _ _ | IoctlIfreq _ _ _ _ | Close _ => true
  | _ => false
  end.

Definition no_net (h : trace call) : Prop :=
  Forall (fun e => is_net (fst e) = false) h.

Definition socket_call : call := Socket AF_INET SOCK_DGRAM 0.

(** What [main] does with the descriptor [fd] that [socket] returned. *)
Definition loopback_events (fd x y : Z) : trace call :=
  if 0 <=? fd
  then [(IoctlIfreq fd SIOCSIFFLAGS "lo" IFF_UP, x); (Close fd, y)]
  else [].

(** The history holds one socket call and what belongs to it. *)
Definition net_done (h : trace call) : Prop :=
  exists pre fd x y post,
    no_net pre /\ no_net post /\
    h = pre ++ (socket_call, fd) :: loopback_events fd x y ++ post.

Definition net_opened (fd : Z) (h : trace call) : Prop :=
  exists pre, no_net pre /\ h = pre ++ [(socket_call, fd)].

Definition net_flagged (fd x : Z) (h : trace call) : Prop :=
  exists pre,
    no_net pre /\
    h = pre ++ [(socket_call, fd); (IoctlIfreq fd SIOCSIFFLAGS "lo" IFF_UP, x)].

Lemma no_net_nil : no_net [].
Proof. constructor. Qed.

Lemma no_net_snoc h c (x : Z) :
  no_net h -> is_net c = false -> no_net (h ++ [(c, x)]).
Proof.
  intros Hh Hc. apply Forall_app. split; [exact Hh|]. repeat constructor.
  exact Hc.
Qed.

Lemma net_opened_intro h fd :
  no_net h -> net_opened fd (h ++ [(socket_call, fd)]).
Proof. intros Hh. exists h. auto. Qed.

Lemma net_flagged_intro h fd x :
  net_opened fd h ->
  net_flagged fd x (h ++ [(IoctlIfreq fd SIOCSIFFLAGS "lo" (Z.lor 0 IFF_UP), x)]).
Proof.
  intros (pre & Hp & ->). exists pre. split; [exact Hp|].
  now rewrite <- app_assoc.
Qed.

Lemma net_done_closed h fd x y :
  net_flagged fd x h -> 0 <= fd -> net_done (h ++ [(Close fd, y)]).
Proof.
  intros (pre & Hp & ->) Hfd. exists pre, fd, x, y, [].
  split; [exact Hp|]. split; [constructor|].
  unfold loopback_events. apply Z.leb_le in Hfd. rewrite Hfd.
  now rewrite <- app_assoc.
Qed.

Lemma net_done_skipped h fd :
  net_opened fd h -> fd < 0 -> net_done h.
Proof.
  intros (pre & Hp & ->) Hfd. exists pre, fd, 0, 0, [].
  split; [exact Hp|]. split; [constructor|].
  unfold loopback_events. apply Z.leb_gt in Hfd. now rewrite Hfd.
Qed.

Lemma net_done_snoc h c (x : Z) :
  net_done h -> is_net c = false -> net_done (h ++ [(c, x)]).
Proof.
  intros (pre & fd & a & b & post & Hp & Hq & ->) Hc.
  exists pre, fd, a, b, (post ++ [(c, x)]).
  split; [exact Hp|]. split; [now apply no_net_snoc|].
  rewrite <- !app_assoc. simpl. now rewrite <- !app_assoc.
Qed.

Lemma net_done_rlimits h t :
  net_done h -> Forall (fun e => rlimit_call (fst e) = true) t ->
  net_done (h ++ t).
Proof.
  intros (pre & fd & a & b & post & Hp & Hq & ->) Ht.
  exists pre, fd, a, b, (post ++ t).
  split; [exact Hp|]. split.
  - apply Forall_app. split; [exact Hq|].
    eapply Forall_impl; [|exact Ht]. intros [c x]. simpl.
    destruct c; simpl; intros; (discriminate || reflexivity).
  - rewrite <- !app_assoc. simpl. now rewrite <- !app_assoc.
Qed.

Ltac no_net_tac :=
  first [ exact no_net_nil | apply no_net_snoc; [no_net_tac|reflexivity] ].

Ltac net_done_tac :=
  first
    [ apply net_done_snoc; [net_done_tac|reflexivity]
    | apply net_done_rlimits; [net_done_tac|assumption]
    | eapply net_done_closed;
      [apply net_flagged_intro, net_opened_intro; no_net_tac|assumption]
    | eapply net_done_skipped; [apply net_opened_intro; no_net_tac|assumption] ].

(** X6: a run of [main] whose mount succeeded opens exactly one socket.
    When [socket] returns a descriptor, the next two calls are the
    [SIOCSIFFLAGS] request for ["lo"] with [IFF_UP] on that descriptor and
    the [close] of that descriptor, whatever the request returned; when
    [socket] fails, the run makes no [ioctl] on a socket and closes
    nothing.  No other call of the run touches a socket. *)
Theorem loopback_socket_is_closed kernel env argv :
  0 <= kernel [] mount_call ->
  net_done (trace_of (main kernel env argv [])).
Proof.
  intros Hm.
  change (wp (main kernel env argv) (fun o => net_done (trace_of o)) []).
  unfold main. fold mount_call. fold socket_call.
  apply wp_bind, wp_sys_exact. unfold after at 1.
  apply Z.ltb_ge in Hm. apply wp_bind. rewrite Hm.
  repeat run_step.
  all: try (apply wp_set_rlimits; intros t Ht; split; intros E).
  all: repeat run_step.
  all: repeat match goal with
         | H : (0 <=? _) = true |- _ => apply Z.leb_le in H
         | H : (0 <=? _) = false |- _ => apply Z.leb_gt in H
         end.
  all: cbv beta iota delta [trace_of]; net_done_tac.
Qed.

Lemma loopback_socket_is_closed_witness :
  0 <= hostile_kernel [] mount_call /\
  net_done (trace_of (main hostile_kernel full_env ["/init.krun"] [])).
Proof.
  split; [discriminate|].
  apply (loopback_socket_is_closed hostile_kernel full_env ["/init.krun"]).
  discriminate.
Defined.

(** *** The variables that are set *)

Lemma in_snoc_here {A} (h : list A) e : In e (h ++ [e]).
Proof. apply in_or_app. right. now left. Qed.

Lemma in_snoc_there {A} (h : list A) e e' : In e h -> In e (h ++ [e']).
Proof. intros H. apply in_or_app. now left. Qed.

Lemma in_app_there {A} (h t : list A) e : In e h -> In e (h ++ t).
Proof. intros H. apply in_or_app. now left. Qed.

Ltac in_trace_tac :=
  first
    [ apply in_snoc_here
    | apply in_snoc_there; in_trace_tac
    | apply in_app_there; in_trace_tac ].

(** [p] is the beginning of [h]. *)
Definition begins_with (p h : trace call) : Prop := exists suffix, h = p ++ suffix.

Lemma begins_with_refl p : begins_with p p.
Proof. exists []. now rewrite app_nil_r. Qed.

Lemma begins_with_snoc p h e : begins_with p h -> begins_with p (h ++ [e]).
Proof. intros [s ->]. exists (s ++ [e]). now rewrite app_assoc. Qed.

Ltac begins_with_tac :=
  first [ apply begins_with_refl | apply begins_with_snoc; begins_with_tac ].

(** What [main] has done with the optional variables when it ends in the
    outcome [o]. *)
Definition variables_applied (kernel : trace call -> call -> Z)
    (env : environ) (o : outcome call Z) : Prop :=
  (forall hostname,
      getenv "HOSTNAME" env = Some hostname ->
      exists x, In (Sethostname hostname (Z.of_nat (String.length hostname)), x)
                   (trace_of o)) /\
  (forall rlimits,
      getenv "KRUN_RLIMITS" env = Some rlimits ->
      exists h, begins_with (trace_of (set_rlimits kernel rlimits h))
                            (trace_of o)) /\
  (forall workdir,
      getenv "KRUN_WORKDIR" env = Some workdir ->
      faulted o = false ->
      exists x, In (Chdir workdir, x) (trace_of o)).

(** X7: in a run of [main] whose mount succeeded, a [HOSTNAME] that is
    set is passed to [sethostname] with its length; a [KRUN_RLIMITS] that
    is set is handed to [set_rlimits], whose calls the run contains; and
    a [KRUN_WORKDIR] that is set is passed to [chdir] unless the run left
    the [KRUN_RLIMITS] string (or has no arguments).  Each holds whatever
    the other variables are and whatever the earlier calls returned. *)
Theorem present_variables_are_applied kernel env argv :
  0 <= kernel [] mount_call ->
  variables_applied kernel env (main kernel env argv []).
Proof.
  intros Hm.
  change (wp (main kernel env argv) (variables_applied kernel env) []).
  unfold main. fold mount_call.
  apply wp_bind, wp_sys_exact. unfold after at 1.
  apply Z.ltb_ge in Hm. apply wp_bind. rewrite Hm.
  repeat run_step.
  all: try (apply wp_set_rlimits; intros t Ht; split; intros E).
  all: repeat run_step.
  all: unfold variables_applied; cbv beta iota delta [trace_of faulted].
  all: repeat split.
  all: intros v Hv; try congruence.
  all: try (intros _).
  all: try discriminate.
  all: match goal with
       | H : getenv _ _ = Some _ |- _ => rewrite H in Hv; injection Hv as <-
       | _ => idtac
       end.
  all: try (eexists; in_trace_tac).
  all: try (eexists; rewrite E; cbv beta iota delta [trace_of];
            begins_with_tac).
Qed.

Lemma present_variables_are_applied_witness :
  0 <= hostile_kernel [] mount_call /\
  variables_applied hostile_kernel full_env
    (main hostile_kernel full_env ["/init.krun"] []).
Proof.
  split; [discriminate|].
  apply (present_variables_are_applied hostile_kernel full_env ["/init.krun"]).
  discriminate.
Defined.

(* ===================================================================== *)
(** ** More about the launcher's [main]: missing arguments, what a failing
       step reports, and the script of a launch *)
(* ===================================================================== *)

Module LauncherFacts.

Import ChrootVm Launcher.

(** X8: started with its name and fewer than two further arguments
    (where three are needed: name, root and command), the launcher
    prints the two usage lines, the second with [argv[0]], and returns -1
    without a single call to libkrun. *)
Theorem launcher_usage host current_dir argv0 rest :
  (List.length rest < 2)%nat ->
  exists x y,
    main host current_dir (argv0 :: rest) [] =
    Ret (-1)
      [(Printf (String.append "Invalid arguments" LF) [], x);
       (Printf (String.append "Usage: %s NEWROOT COMMAND [ARG...]" LF)
               [argv0], y)].
Proof.
  intros Hlen. unfold main. cbv zeta.
  assert (H : (Z.of_nat (List.length (argv0 :: rest)) <? 3) = true)
    by (apply Z.ltb_lt; simpl List.length; lia).
  rewrite H. unfold bind, sys, ret. do 2 eexists. reflexivity.
Qed.

Lemma launcher_usage_witness :
  (List.length ["/tmp/rootfs"] < 2)%nat /\
  exists x y,
    main willing_host "/home/user" ["chroot_vm"; "/tmp/rootfs"] [] =
    Ret (-1)
      [(Printf (String.append "Invalid arguments" LF) [], x);
       (Printf (String.append "Usage: %s NEWROOT COMMAND [ARG...]" LF)
               ["chroot_vm"], y)].
Proof.
  split; [simpl; lia|].
  apply (launcher_usage willing_host "/home/user" "chroot_vm" ["/tmp/rootfs"]).
  simpl. lia.
Defined.

(** The message [main] passes to [perror] when a step fails. *)
Definition step_message (c : call) : string :=
  match c with
  | KrunSetLogLevel _ => "Error configuring log level"
  | KrunCreateCtx => "Error creating configuration context"
  | KrunSetVmConfig _ _ _ =>
      "Error configuring the number of vCPUs and/or the amount of RAM"
  | KrunSetRoot _ _ => "Error configuring root path"
  | Getcwd _ => "Error getting current directory"
  | Malloc _ => volume_error
  | KrunSetMappedVolumes _ _ => "Error configuring mapped volumes"
  | KrunSetPortMap _ _ => "Error configuring port map"
  | KrunSetRlimits _ _ => "Error configuring rlimits"
  | KrunSetWorkdir _ _ =>
      String.append "Error configuring "
        (String.append DQUOTE
           (String.append "/" (String.append DQUOTE " as working directory")))
  | KrunSetExec _ _ _ _ =>
      "Error configuring the parameters for the executable to be run"
  | KrunStartEnter _ => "Error creating the microVM"
  | Printf _ _ | Perror _ _ => ""
  end.

(** The value [errno] has when [perror] is called after the step [c]
    returned [r]: the negated result for the steps whose result is kept in
    [err], and 0 for the three steps whose result is not. *)
Definition reported_errno (c : call) (r : Z) : Z :=
  match c with
  | KrunCreateCtx | Getcwd _ | Malloc _ => 0
  | _ => - r
  end.

(** How a launch with enough arguments ends. *)
Definition launch_report (o : outcome call Z) : Prop :=
  match o with
  | Ret v h =>
      v = -1 /\
      exists h' c r x,
        h = h' ++ [(c, r); (Perror (step_message c) (reported_errno c r), x)] /\
        all_ok h' /\ checked_step c /\ ~ call_ok c r
  | Fault h =>
      exists h' size x,
        h = h' ++ [(Malloc size, 0); (Perror volume_error 0, x)] /\ all_ok h'
  | Replaced h =>
      exists h' ctx, h = h' ++ [(KrunStartEnter ctx, 0)] /\ all_ok h'
  | Exit _ _ => False
  end.

(** X9: a launch with at least three arguments never calls [exit].  When
    it returns, it returns -1, and its last two events are the first call
    that failed and the [perror] of that step, with the step's own message;
    every call before succeeded and none comes after.  [errno] is the
    negated result of the failed call, except after [krun_create_ctx] and
    [getcwd], where it is 0 whatever went wrong.  The run enters the
    virtual machine only after every step succeeded; and the one failure
    that is not fatal is that of [malloc], reported with [errno] 0. *)
Theorem failing_step_is_reported host current_dir argv :
  (3 <= List.length argv)%nat ->
  launch_report (main host current_dir argv []).
Proof.
  intros Hlen.
  change (wp (main host current_dir argv) launch_report []).
  unfold main.
  repeat launch_step.
  all: decide_tests.
  all: try (exfalso; lia).
  all: subst.
  all: unfold launch_report.
  all: first
         [ do 2 eexists; split; [reflexivity|all_ok_tac]
         | do 3 eexists; split;
           [rewrite step_failed_shape; reflexivity|all_ok_tac]
         | split; [reflexivity|];
           match goal with
           | |- exists h' c r x,
                  (?h ++ [(?cc, ?rr)]) ++ [(Perror _ _, ?xx)] = _ /\ _ =>
               exists h, cc, rr, xx
           end;
           split; [rewrite step_failed_shape; reflexivity|];
           split; [all_ok_tac|]; split; [exact I|simpl; lia] ].
Qed.

Lemma failing_step_is_reported_witness :
  (3 <= List.length ["chroot_vm"; "/tmp/rootfs"; "/bin/true"])%nat /\
  launch_report
    (main (fun _ c => match c with
                      | Getcwd _ | Malloc _ => 1
                      | KrunCreateCtx => -12
                      | _ => 0
                      end)
          "/home/user" ["chroot_vm"; "/tmp/rootfs"; "/bin/true"] []).
Proof.
  split; [simpl; lia|].
  apply failing_step_is_reported. simpl. lia.
Defined.

(** The run of the witness: the refused context is reported with
    [errno] 0. *)
Example refused_context_run :
  main (fun _ c => match c with
                   | Getcwd _ | Malloc _ => 1
                   | KrunCreateCtx => -12
                   | _ => 0
                   end)
       "/home/user" ["chroot_vm"; "/tmp/rootfs"; "/bin/true"] [] =
  Ret (-1) [(KrunSetLogLevel 0, 0);
            (KrunCreateCtx, -12);
            (Perror "Error creating configuration context" 0, 0)].
Proof. reflexivity. Qed.

(** *** The script of a launch *)

Lemma string_length_append a b :
  String.length (String.append a b) = (String.length a + String.length b)%nat.
Proof. induction a as [|c a IH]; simpl; [reflexivity|now rewrite IH]. Qed.

Lemma substring_whole s : substring 0 (String.length s) s = s.
Proof. induction s as [|c s IH]; simpl; [reflexivity|now rewrite IH]. Qed.

(** The buffer [main] allocates for the volume string holds the whole of
    it. *)
Lemma snprintf_ss_exact a b :
  snprintf_ss (Z.of_nat (String.length a) + Z.of_nat (String.length b) + 1) a b =
  String.append a b.
Proof.
  unfold snprintf_ss.
  replace (Z.to_nat (Z.of_nat (String.length a) + Z.of_nat (String.length b)
                     + 1 - 1))
    with (String.length (String.append a b))
    by (rewrite string_length_append; lia).
  apply substring_whole.
Qed.

(** The calls of a launch that goes all the way, for the context [ctx]
    that [krun_create_ctx] returned and the directory [current_dir] that
    [getcwd] stored. *)
Definition launch_script (argv : list string) (current_dir : string) (ctx : Z)
  : list call :=
  [KrunSetLogLevel 0;
   KrunCreateCtx;
   KrunSetVmConfig ctx 1 4096;
   KrunSetRoot ctx (nth 1 argv "");
   Getcwd MAX_PATH;
   Malloc (Z.of_nat (String.length current_dir) + 6 + 1);
   KrunSetMappedVolumes ctx [String.append current_dir ":/work"];
   KrunSetPortMap ctx ["18000:8000"];
   KrunSetRlimits ctx ["6=4096:8192"];
   KrunSetWorkdir ctx "/";
   KrunSetExec ctx (nth 2 argv "") (skipn 3 argv) ["TEST=works"];
   KrunStartEnter ctx].

Inductive prefix_of {A : Type} : list A -> list A -> Prop :=
| prefix_nil l : prefix_of [] l
| prefix_cons a p l : prefix_of p l -> prefix_of (a :: p) (a :: l).

Definition is_perror (c : call) : bool :=
  match c with
  | Perror _ _ => true
  | _ => false
  end.

(** The calls of a history other than its diagnostics. *)
Definition steps_of (h : trace call) : list call :=
  filter (fun c => negb (is_perror c)) (map fst h).

Definition follows_script (argv : list string) (current_dir : string)
    (h : trace call) : Prop :=
  exists ctx,
    prefix_of (steps_of h) (launch_script argv current_dir ctx) /\
    forall r, In (KrunCreateCtx, r) h -> r = ctx.

(** X10: apart from its diagnostics, a launch with at least three
    arguments makes the calls of [launch_script] in that order, up to the
    point where it stops: log level 0, one context, 1 vCPU and 4096 MiB,
    the root [argv[1]], the working directory followed by [:/work] as the
    one mapped volume (never cut short by the buffer), the port map
    [18000:8000], the limit [6=4096:8192], the working directory [/], the
    command [argv[2]] with the arguments after it and the environment
    [TEST=works]; every call that takes a context is given the value
    [krun_create_ctx] returned. *)
Theorem launch_follows_script host current_dir argv :
  (3 <= List.length argv)%nat ->
  follows_script argv current_dir (trace_of (main host current_dir argv [])).
Proof.
  intros Hlen.
  change (wp (main host current_dir argv)
             (fun o => follows_script argv current_dir (trace_of o)) []).
  unfold main.
  change (Z.of_nat (String.length ":/work")) with 6.
  rewrite !(snprintf_ss_exact current_dir ":/work"
            : snprintf_ss (Z.of_nat (String.length current_dir) + 6 + 1)
                          current_dir ":/work" = _).
  repeat launch_step.
  all: decide_tests.
  all: try (exfalso; lia).
  all: cbv beta iota delta [trace_of]; unfold follows_script.
  all: match goal with
       | |- context [(KrunCreateCtx, ?r)] => exists r
       | _ => exists 0
       end.
  all: split;
    [ simpl; repeat constructor
    | intros r' Hin; simpl in Hin;
      repeat (destruct Hin as [Hin | Hin]; try discriminate);
      try contradiction; congruence ].
Qed.

Lemma launch_follows_script_witness :
  (3 <= List.length ["chroot_vm"; "/tmp/rootfs"; "/bin/true"; "--flag"])%nat /\
  follows_script ["chroot_vm"; "/tmp/rootfs"; "/bin/true"; "--flag"] "/home/user"
    (trace_of (main willing_host "/home/user"
                    ["chroot_vm"; "/tmp/rootfs"; "/bin/true"; "--flag"] [])).
Proof.
  split; [simpl; lia|].
  apply launch_follows_script. simpl. lia.
Defined.

End LauncherFacts.

(* ===================================================================== *)
(** ** When [init] reaches the exec *)
(* ===================================================================== *)

(** The string keeps [set_rlimits] inside it.  The reference kernel does
    not matter: by [loop_ignores_kernel] no kernel changes what is read. *)
Definition stays_inside (rlimits : string) : bool :=
  negb (faulted (set_rlimits willing_kernel rlimits [])).

(** [KRUN_RLIMITS] is absent, or its value keeps [set_rlimits] inside
    it. *)
Definition rlimits_stay_inside (env : environ) : bool :=
  match getenv "KRUN_RLIMITS" env with
  | Some rlimits => stays_inside rlimits
  | None => true
  end.

Lemma stays_inside_any_kernel kernel s h :
  stays_inside s = true -> faulted (set_rlimits kernel s h) = false.
Proof.
  unfold stays_inside, set_rlimits. intros H. apply negb_true_iff in H.
  destruct (loop_ignores_kernel kernel willing_kernel
              (list_ascii_of_string s) 0 h [])
    as (t1 & t2 & _ & _ & _ & Hf).
  congruence.
Qed.

(** X11: for an environment whose [KRUN_RLIMITS] is absent or keeps
    [set_rlimits] inside the string, and an argument vector that has its
    [argv[0]], the mount is the only step of [main] that can keep it from
    the exec.  Once the mount succeeded, whatever the kernel answers to
    any later call, [main] does not exit, and its run ends with its one
    [execv] call, which takes the process over or comes back, in which
    case [main] returns 0. *)
Theorem exec_reached_when_rlimits_stay_inside kernel env argv0 args :
  0 <= kernel [] mount_call ->
  rlimits_stay_inside env = true ->
  (forall st h, main kernel env (argv0 :: args) [] <> Exit st h) /\
  exists h e,
    Forall (fun ev => is_execv (fst ev) = false) h /\
    ((e = 0 /\ main kernel env (argv0 :: args) [] =
               Replaced (h ++ [(exec_call env (argv0 :: args), e)])) \/
     (e <> 0 /\ main kernel env (argv0 :: args) [] =
                Ret 0 (h ++ [(exec_call env (argv0 :: args), e)]))).
Proof.
  intros Hm Hin. apply main_mount_succeeded; [exact Hm|].
  pose proof (main_runs kernel env (argv0 :: args)) as R.
  inversion R as [r' Hr E | s hs h Hr Hh Hs Hfault E | h Hr Hh Ha E
                 | h e Hr Hh Ha He E | h Hr Hh Ha E];
    try reflexivity.
  - unfold rlimits_stay_inside in Hin. rewrite Hs in Hin.
    pose proof (stays_inside_any_kernel kernel s hs Hin) as Hno.
    rewrite Hfault in Hno. discriminate.
  - discriminate.
Qed.

(** The hostile kernel: every call between the mount and the exec
    fails. *)
Lemma exec_reached_when_rlimits_stay_inside_witness :
  0 <= hostile_kernel [] mount_call /\
  rlimits_stay_inside full_env = true /\
  (forall st h, main hostile_kernel full_env ["/init.krun"] [] <> Exit st h) /\
  exists h e,
    Forall (fun ev => is_execv (fst ev) = false) h /\
    ((e = 0 /\ main hostile_kernel full_env ["/init.krun"] [] =
               Replaced (h ++ [(exec_call full_env ["/init.krun"], e)])) \/
     (e <> 0 /\ main hostile_kernel full_env ["/init.krun"] [] =
                Ret 0 (h ++ [(exec_call full_env ["/init.krun"], e)]))).
Proof.
  split; [discriminate|]. split; [reflexivity|].
  apply (exec_reached_when_rlimits_stay_inside hostile_kernel full_env
           "/init.krun" []);
    [discriminate|reflexivity].
Defined.
